(** * Playback reconciliation of the shared listening room

    A shallow embedding of the synchronisation logic of
    [src/contexts/MusicContext.tsx]: the position projection, the action
    publishers ([updatePlayPauseState], [updateSeekPosition],
    [updateTrack]), [playSong], the snapshot listener installed by
    [joinRoom], and the membership operations [joinRoom] / [leaveRoom].

    Conventions of the embedding.
    - Wall-clock instants are integers (milliseconds, as [Date.now()] and
      [Timestamp.toMillis()] return them).  Positions are JavaScript
      numbers holding seconds; they are idealised as exact rationals [Q],
      so rounding of IEEE doubles is not part of the model and equalities
      on positions are stated with [==].
    - A React render closes over the values of [user], [currentRoom] and
      [state] of that render.  The record [Render] is that closure
      environment; refs ([soundRef], [seekDebounceRef]) are mutable and are
      passed explicitly.
    - Every call that leaves the component (audio engine, store, state
      setter) is recorded as an [Effect]; a function returns the list of
      effects it issues, in program order.
    - Asynchronous calls that may reject are resolved by an environment
      record ([PlayEnv], [option Status]) that fixes their outcome. *)

From Stdlib Require Import ZArith QArith Qminmax Qabs List Bool Ascii String Lia.
From stdpp Require Import gmap strings list fin_maps.

Local Open Scope Z_scope.

(** ** Data *)

(** [interface Song] *)
Record Song := mkSong {
  song_id : string;
  title : string;
  artist : string;
  url : string;
  song_duration : Q
}.

(** [interface Participant] *)
Record Participant := mkParticipant {
  participant_id : string;
  participant_email : option string;
  joinedAt : Z
}.

(** The authenticated user of [useAuth()], as far as the code reads it. *)
Record User := mkUser {
  uid : string;
  email : option string
}.

(** [interface MusicState], restricted to the fields the synchronisation
    code reads or writes. *)
Record MusicState := mkMusicState {
  currentSong : option Song;
  isPlaying : bool;
  currentTime : Q;
  duration : Q;
  queue : list Song;
  volume : Q
}.

(** The values one render of [MusicProvider] closes over. *)
Record Render := mkRender {
  user : option User;
  currentRoom : option string;
  state : MusicState
}.

(** Identity of an [Audio.Sound] object. *)
Definition Handle := nat.

(** A room document as the snapshot listener reads it.  [None] stands for
    a field that is [null] or missing, with one exception:
    [lastActionSeekPosition] is only tested against [undefined], so there
    [None] is the missing field alone; a [null] passes the test, counts as
    the number 0 in the sum [data.lastActionSeekPosition + elapsedTime],
    the only place the field is used, and is held as [Some 0]. *)
Module Room.

Record Doc := mkDoc {
  id : string;
  participants : option (list Participant);
  currentTrackId : option string;
  isPlaying : bool;
  lastActionTime : option Z;
  lastActionSeekPosition : option Q;
  lastActionByUserId : option string;
  createdAt : Z
}.

End Room.

(** A partial update handed to [updateDoc]; [None] leaves the field alone.
    [lastActionTime] can only be requested as [serverTimestamp()]. *)
Record Fields := mkFields {
  f_participants : option (list Participant);
  f_currentTrackId : option string;
  f_isPlaying : option bool;
  f_lastActionTime : bool;
  f_lastActionSeekPosition : option Q;
  f_lastActionByUserId : option string
}.

(** Updaters passed to [setState(prev => ...)]. *)
Inductive StateUpdate :=
| SetCurrentTime (t : Q)
| SetIsPlaying (b : bool)
| SetNowPlaying (song : Song).

Definition applyUpdate (u : StateUpdate) (prev : MusicState) : MusicState :=
  match u with
  | SetCurrentTime t =>
      mkMusicState (currentSong prev) (isPlaying prev) t (duration prev)
                   (queue prev) (volume prev)
  | SetIsPlaying b =>
      mkMusicState (currentSong prev) b (currentTime prev) (duration prev)
                   (queue prev) (volume prev)
  | SetNowPlaying song =>
      mkMusicState (Some song) true 0%Q (song_duration song)
                   (queue prev) (volume prev)
  end.

(** Calls that leave the component. *)
Inductive Effect :=
| StopAsync (h : Handle)
| UnloadAsync (h : Handle)
| CreateAsync (uri : string) (shouldPlay : bool) (vol : Q)
| GetStatusAsync (h : Handle)
| SetPositionAsync (h : Handle) (millis : Q)
| PlayAsync (h : Handle)
| PauseAsync (h : Handle)
| SetState (u : StateUpdate)
| ShowWidget (song : Song) (playing : bool) (position : Q)
| UpdateDoc (room : string) (f : Fields)
| SetLastPlayedBy (name : string)
| ClearCurrentSongMood
| ConsoleError (message : string).

(** The commands addressed to the local audio engine. *)
Definition is_transport (e : Effect) : bool :=
  match e with
  | StopAsync _ | UnloadAsync _ | CreateAsync _ _ _ | GetStatusAsync _
  | SetPositionAsync _ _ | PlayAsync _ | PauseAsync _ => true
  | _ => false
  end.

Definition is_seek (e : Effect) : bool :=
  match e with SetPositionAsync _ _ => true | _ => false end.

Definition is_write (e : Effect) : bool :=
  match e with UpdateDoc _ _ => true | _ => false end.

Definition is_state_change (e : Effect) : bool :=
  match e with SetState _ => true | _ => false end.

Definition applyEffect (e : Effect) (s : MusicState) : MusicState :=
  match e with SetState u => applyUpdate u s | _ => s end.

(** The live component state after a run of effects. *)
Definition applyEffects (es : list Effect) (s : MusicState) : MusicState :=
  fold_left (fun acc e => applyEffect e acc) es s.

(** How an [async] function settles. *)
Inductive Completion := Resolved | Rejected.

(** JavaScript truthiness of a string-or-null value. *)
Definition truthy (o : option string) : bool :=
  match o with
  | Some s => negb (String.eqb s EmptyString)
  | None => false
  end.

(** ** Position projection *)

(** [(now - lastActionTimeMillis) / 1000] *)
Definition elapsedTime (now lastActionTimeMillis : Z) : Q :=
  (inject_Z (now - lastActionTimeMillis) / 1000)%Q.

(** [calculateCurrentPosition]; [now] is the reading of [new Date()]. *)
Definition calculateCurrentPosition (now : Z) (lastActionTime : option Z)
    (lastActionSeekPosition : Q) : Q :=
  match lastActionTime with
  | None => lastActionSeekPosition
  | Some t => (lastActionSeekPosition + elapsedTime now t)%Q
  end.

(** [calculatedPosition] of the snapshot listener:
    [data.lastActionSeekPosition + elapsedTime]. *)
Definition calculatedPosition (now lastActionTimeMillis : Z)
    (lastActionSeekPosition : Q) : Q :=
  (lastActionSeekPosition + elapsedTime now lastActionTimeMillis)%Q.

(** ** Action publishers *)

(** The test [currentRoom && user] (the guard [if (!currentRoom || !user)
    return;] of the three
    publishers, and the test of [leaveRoom]): the room and user the closure
    acts for, if any. *)
Definition roomAndUser (r : Render) : option (string * User) :=
  match user r with
  | Some u => if truthy (currentRoom r)
              then match currentRoom r with
                   | Some room => Some (room, u)
                   | None => None
                   end
              else None
  | None => None
  end.

(** An [await updateDoc(...)] inside [try { } catch { console.error }]:
    the write is issued; a rejection is logged and swallowed. *)
Definition guardedUpdate (room : string) (f : Fields) (storeOk : bool)
    (message : string) : list Effect :=
  UpdateDoc room f :: (if storeOk then [] else [ConsoleError message]).

(** [updatePlayPauseState] *)
Definition updatePlayPauseState (r : Render) (storeOk : bool)
    (isPlaying : bool) (currentSeekPosition : Q) : list Effect * Completion :=
  match roomAndUser r with
  | None => ([], Resolved)
  | Some (room, u) =>
      (guardedUpdate room
         (mkFields None None (Some isPlaying) true
                   (Some currentSeekPosition) (Some (uid u)))
         storeOk "Error updating play/pause state:",
       Resolved)
  end.

(** [updateTrack] *)
Definition updateTrack (r : Render) (storeOk : bool) (song : Song)
    : list Effect * Completion :=
  match roomAndUser r with
  | None => ([], Resolved)
  | Some (room, u) =>
      (guardedUpdate room
         (mkFields None (Some (song_id song)) (Some true) true
                   (Some 0%Q) (Some (uid u)))
         storeOk "Error updating track:",
       Resolved)
  end.

(** *** The debounced seek publisher *)

(** What the callback handed to [setTimeout] closes over. *)
Record SeekTask := mkSeekTask {
  task_room : string;
  task_user : User;
  task_position : Q
}.

(** A timer armed by [setTimeout]: its id, the instant it is due, its
    callback. *)
Record Timer := mkTimer {
  timer_id : nat;
  timer_due : Z;
  timer_task : SeekTask
}.

(** The part of the client the seek publisher works on: the ref holding
    the last timer id, the timers of the event loop that are armed, the id
    the next [setTimeout] returns, and the effects issued so far.  Timer
    handles are truthy in JavaScript, so [if (seekDebounceRef.current)] is
    the test "the ref holds a handle". *)
Record Publisher := mkPublisher {
  seekDebounceRef : option nat;
  timers : list Timer;
  nextTimer : nat;
  issued : list Effect
}.

Definition clearTimeout (i : nat) (ts : list Timer) : list Timer :=
  List.filter (fun t => negb (Nat.eqb (timer_id t) i)) ts.

(** The body of the timer callback of [updateSeekPosition]. *)
Definition seekCallback (storeOk : bool) (k : SeekTask) : list Effect :=
  guardedUpdate (task_room k)
    (mkFields None None None true (Some (task_position k))
              (Some (uid (task_user k))))
    storeOk "Error updating seek position:".

(** [updateSeekPosition], called at instant [now]. *)
Definition updateSeekPosition (r : Render) (now : Z) (newSeekPosition : Q)
    (c : Publisher) : Publisher * Completion :=
  match roomAndUser r with
  | None => (c, Resolved)
  | Some (room, u) =>
      let armed := match seekDebounceRef c with
                   | Some i => clearTimeout i (timers c)
                   | None => timers c
                   end in
      (mkPublisher (Some (nextTimer c))
         (armed ++ [mkTimer (nextTimer c) (now + 500)
                            (mkSeekTask room u newSeekPosition)])
         (S (nextTimer c))
         (issued c),
       Resolved)
  end.

(** The event loop reaching instant [now]: every armed timer that is due
    fires, oldest first, and is disarmed.  (All timers carry the same
    delay, so arming order is firing order.) *)
Definition advance (storeOk : bool) (now : Z) (c : Publisher) : Publisher :=
  let due := List.filter (fun t => Z.leb (timer_due t) now) (timers c) in
  let rest := List.filter (fun t => negb (Z.leb (timer_due t) now)) (timers c) in
  mkPublisher (seekDebounceRef c) rest (nextTimer c)
    (issued c ++ flat_map (fun t => seekCallback storeOk (timer_task t)) due).

(** A seek intent: the instant of the call, the render whose closure is
    called, and the requested position. *)
Record SeekCall := mkSeekCall {
  call_time : Z;
  call_render : Render;
  call_position : Q
}.

(** The client processing a sequence of calls in time order: before each
    call the event loop runs the timers that fell due. *)
Fixpoint seekSession (storeOk : bool) (calls : list SeekCall) (c : Publisher)
    : Publisher :=
  match calls with
  | [] => c
  | k :: rest =>
      seekSession storeOk rest
        (fst (updateSeekPosition (call_render k) (call_time k)
                (call_position k) (advance storeOk (call_time k) c)))
  end.

(** A client with no timer armed. *)
Definition idle (next : nat) (done : list Effect) : Publisher :=
  mkPublisher None [] next done.

(** ** Local transport: [playSong] *)

(** Outcomes of the calls [playSong] awaits.  [cacheInfo] is the [exists]
    flag of [FileSystem.getInfoAsync] ([None]: the call rejects);
    [created] is the sound [Audio.Sound.createAsync] resolves to ([None]:
    it rejects).  [showOrUpdateMusicWidget] has no outcome here: its body
    is one [try] block whose [catch] only logs, so it always resolves. *)
Record PlayEnv := mkPlayEnv {
  documentDirectory : string;
  stopOk : bool;
  unloadOk : bool;
  cacheInfo : option bool;
  downloadOk : bool;
  created : option Handle;
  storeOk : bool
}.

Definition SONG_CACHE_DIR (env : PlayEnv) : string :=
  (documentDirectory env ++ "song-cache/")%string.

(** [user.email?.split('@')[0] || 'Unknown'] *)
Fixpoint beforeAt (s : string) : string :=
  match s with
  | EmptyString => EmptyString
  | String c rest =>
      if Ascii.eqb c "@"%char then EmptyString else String c (beforeAt rest)
  end.

Definition displayName (u : User) : string :=
  match email u with
  | Some e => if String.eqb (beforeAt e) EmptyString then "Unknown" else beforeAt e
  | None => "Unknown"
  end.

(** One run of [playSong]: the effects issued before its first [await]
    (they happen inside the caller's turn), those issued afterwards, and
    the value of [soundRef.current] when it settles. *)
Record PlayRun := mkPlayRun {
  beforeAwait : list Effect;
  afterAwait : list Effect;
  soundRefAfter : option Handle
}.

Definition playSongError : Effect := ConsoleError "Error playing song:".

(** [playSong] from the optimistic [setState] to its end; the sound has
    been created. *)
Definition playSong_publish (r : Render) (env : PlayEnv) (song : Song)
    : list Effect :=
  SetState (SetNowPlaying song) ::
  ShowWidget song true 0%Q ::
  match updateTrack r (storeOk env) song with
  | (es, Resolved) =>
      es ++
      match roomAndUser r with
      | Some (_, u) => [SetLastPlayedBy (displayName u)]
      | None => []
      end ++
      [ClearCurrentSongMood]
  | (es, Rejected) => es ++ [playSongError]
  end.

(** [playSong] from the cache lookup on. *)
Definition playSong_load (r : Render) (env : PlayEnv) (ref0 : option Handle)
    (song : Song) : list Effect * option Handle :=
  match cacheInfo env with
  | None => ([playSongError], ref0)
  | Some cachedFile =>
      let localUri := (SONG_CACHE_DIR env ++ song_id song)%string in
      let songUrl := if cachedFile then localUri
                     else if downloadOk env then localUri else url song in
      let load := CreateAsync songUrl true (volume (state r)) in
      match created env with
      | None => ([load; playSongError], ref0)
      | Some h => (load :: playSong_publish r env song, Some h)
      end
  end.

(** [playSong], started while [soundRef.current] is [ref0].  Any rejected
    [await] inside its [try] block ends the run in the [catch] handler.
    The status callback it registers on the new sound and the background
    preload of the next song are not part of the model. *)
Definition playSong (r : Render) (env : PlayEnv) (ref0 : option Handle)
    (song : Song) : PlayRun :=
  match ref0 with
  | Some old =>
      if stopOk env then
        if unloadOk env then
          let (es, ref1) := playSong_load r env ref0 song in
          mkPlayRun [StopAsync old] (UnloadAsync old :: es) ref1
        else mkPlayRun [StopAsync old] [UnloadAsync old; playSongError] ref0
      else mkPlayRun [StopAsync old] [playSongError] ref0
  | None =>
      let (es, ref1) := playSong_load r env ref0 song in
      mkPlayRun [] es ref1
  end.

(** ** The snapshot listener installed by [joinRoom] *)

(** What [getStatusAsync] resolves to. *)
Record Status := mkStatus {
  isLoaded : bool;
  status_isPlaying : bool;
  positionMillis : Q
}.

(** The [.then] continuation waiting for the status of [pendingHandle]. *)
Record Pending := mkPending {
  pendingHandle : Handle;
  pendingPosition : Q;
  pendingIsPlaying : bool
}.

(** What the listener does within its own turn: the song it starts
    [playSong] on, and the status request it leaves pending. *)
Record Sync := mkSync {
  startedSong : option Song;
  statusRequest : option Pending
}.

Definition sameId (a : option string) (b : string) : bool :=
  match a with
  | Some s => String.eqb s b
  | None => false
  end.

(** [data.currentTrackId && data.currentTrackId !== state.currentSong?.id],
    then [state.queue.find(s => s.id === data.currentTrackId)]. *)
Definition trackChange (r : Render) (data : Room.Doc) : option Song :=
  match Room.currentTrackId data with
  | Some tid =>
      if truthy (Some tid)
         && negb (sameId (option_map song_id (currentSong (state r))) tid)
      then List.find (fun s => String.eqb (song_id s) tid) (queue (state r))
      else None
  | None => None
  end.

(** The pivot block: runs when [lastActionTime] is truthy,
    [lastActionSeekPosition] is not [undefined] ([None]: see [Room.Doc])
    and [soundRef.current] is set. *)
Definition pivotRequest (soundRef : option Handle) (now : Z)
    (data : Room.Doc) : option Pending :=
  match Room.lastActionTime data, Room.lastActionSeekPosition data with
  | Some t, Some p =>
      match soundRef with
      | Some h =>
          Some (mkPending h (calculatedPosition now t p) (Room.isPlaying data))
      | None => None
      end
  | _, _ => None
  end.

(** The listener body, up to the point where it returns.  [u] is the
    authenticated user of the closure, [soundRef] the value of
    [soundRef.current] during the turn, [now] the reading of [Date.now()],
    [snap] the document data ([None]: the document does not exist). *)
Definition onSnapshot (r : Render) (u : User) (soundRef : option Handle)
    (now : Z) (snap : option Room.Doc) : Sync :=
  match snap with
  | None => mkSync None None
  | Some data =>
      if sameId (Room.lastActionByUserId data) (uid u)
      then mkSync None None
      else mkSync (trackChange r data) (pivotRequest soundRef now data)
  end.

Definition onHandle (soundRef : option Handle) (f : Handle -> Effect)
    : list Effect :=
  match soundRef with
  | Some h => [f h]
  | None => []
  end.

(** The continuation of [getStatusAsync()]: [soundRef] is the value of
    [soundRef.current] when it runs, [st] the status ([None]: the call
    rejected and the [catch] handler logs). *)
Definition onStatus (r : Render) (soundRef : option Handle)
    (st : option Status) (pd : Pending) : list Effect :=
  match st with
  | None => [ConsoleError "[RECEIVE] Error updating player state:"]
  | Some status =>
      if isLoaded status then
        onHandle soundRef
          (fun h => SetPositionAsync h (pendingPosition pd * 1000)%Q) ++
        SetState (SetCurrentTime (pendingPosition pd)) ::
        (if Bool.eqb (pendingIsPlaying pd) (isPlaying (state r)) then []
         else if pendingIsPlaying pd
              then onHandle soundRef PlayAsync ++ [SetState (SetIsPlaying true)]
              else onHandle soundRef PauseAsync ++ [SetState (SetIsPlaying false)])
      else []
  end.

(** The two orders in which the pending work of one notification can
    settle: the status continuation runs before [playSong] has replaced
    [soundRef.current], or after. *)
Inductive Schedule := StatusFirst | LoadFirst.

(** Everything one change notification causes: the listener's own turn,
    the [playSong] run it starts (not awaited), and the status
    continuation. *)
Definition reconcile (r : Render) (u : User) (env : PlayEnv)
    (sched : Schedule) (soundRef : option Handle) (now : Z)
    (snap : option Room.Doc) (st : option Status) : list Effect :=
  let sync := onSnapshot r u soundRef now snap in
  let run := match startedSong sync with
             | Some song => playSong r env soundRef song
             | None => mkPlayRun [] [] soundRef
             end in
  match statusRequest sync with
  | None => beforeAwait run ++ afterAwait run
  | Some pd =>
      beforeAwait run ++ GetStatusAsync (pendingHandle pd) ::
      match sched with
      | StatusFirst => onStatus r soundRef st pd ++ afterAwait run
      | LoadFirst => afterAwait run ++ onStatus r (soundRefAfter run) st pd
      end
  end.

(** A registered snapshot listener: the room it listens to and what its
    closure holds.  The callback handed to [onSnapshot] is created inside
    [joinRoom], so the [user], [state] and [playSong] it mentions (and,
    through [playSong], [updateTrack] with its [currentRoom]) are those of
    the render [joinRoom] was called from; [setCurrentRoom(roomId)] only
    shows in later renders. *)
Record Subscription := mkSubscription {
  sub_room : string;
  sub_render : Render;
  sub_user : User
}.


(** ** The store and room membership *)

(** The [rooms] collection.  Store calls are taken to succeed unless the
    store itself refuses them ([updateDoc] on a missing document). *)
Abbreviation Store := (gmap string Room.Doc).

(** Merge semantics of [updateDoc]: named fields are replaced, the others
    kept; [serverTimestamp()] resolves to the store's clock. *)
Definition applyFields (serverNow : Z) (f : Fields) (d : Room.Doc)
    : Room.Doc :=
  Room.mkDoc (Room.id d)
    (match f_participants f with
     | Some ps => Some ps
     | None => Room.participants d
     end)
    (match f_currentTrackId f with
     | Some t => Some t
     | None => Room.currentTrackId d
     end)
    (match f_isPlaying f with
     | Some b => b
     | None => Room.isPlaying d
     end)
    (if f_lastActionTime f then Some serverNow else Room.lastActionTime d)
    (match f_lastActionSeekPosition f with
     | Some p => Some p
     | None => Room.lastActionSeekPosition d
     end)
    (match f_lastActionByUserId f with
     | Some w => Some w
     | None => Room.lastActionByUserId d
     end)
    (Room.createdAt d).

Definition updateDoc (serverNow : Z) (room : string) (f : Fields)
    (db : Store) : option Store :=
  match db !! room with
  | Some d => Some (<[room := applyFields serverNow f d]> db)
  | None => None
  end.

(** The instants read during one [joinRoom]: the two [Date.now()] readings
    and the store's clock. *)
Record Clocks := mkClocks {
  joinedNow : Z;
  createdNow : Z;
  serverNow : Z
}.

Definition hasId (who : string) (p : Participant) : bool :=
  String.eqb (participant_id p) who.

(** [roomData.participants || []] *)
Definition participantsOf (d : Room.Doc) : list Participant :=
  match Room.participants d with
  | Some ps => ps
  | None => []
  end.

Definition onlyParticipants (ps : list Participant) : Fields :=
  mkFields (Some ps) None None false None None.

(** The store part of [joinRoom] for an authenticated user. *)
Definition joinRoom_store (u : User) (roomId : string) (clk : Clocks)
    (db : Store) : Store :=
  let me := mkParticipant (uid u) (email u) (joinedNow clk) in
  match db !! roomId with
  | None =>
      <[roomId := Room.mkDoc roomId (Some [me]) None false
                    (Some (serverNow clk)) (Some 0%Q) None (createdNow clk)]> db
  | Some roomData =>
      match List.find (hasId (uid u)) (participantsOf roomData) with
      | Some _ => db
      | None =>
          match updateDoc (serverNow clk) roomId
                  (onlyParticipants (participantsOf roomData ++ [me])) db with
          | Some db' => db'
          | None => db
          end
      end
  end.

(** What a call of [joinRoom] leaves behind: the store, the listener it
    registered on the room document, and how the call settles. *)
Record Joined := mkJoined {
  joined_store : Store;
  joined_listener : option Subscription;
  joined_completion : Completion
}.

(** [joinRoom], called from render [r]. *)
Definition joinRoom (r : Render) (roomId : string) (clk : Clocks)
    (db : Store) : Joined :=
  match user r with
  | None => mkJoined db None Rejected
  | Some u =>
      mkJoined (joinRoom_store u roomId clk db)
               (Some (mkSubscription roomId r u))
               Resolved
  end.

(** [leaveRoom]: the store afterwards and how the call settles.  (The
    listener is unsubscribed and the local room state reset afterwards;
    neither touches the store.) *)
Definition leaveRoom (r : Render) (serverNow : Z) (db : Store)
    : Store * Completion :=
  match roomAndUser r with
  | Some (room, u) =>
      match db !! room with
      | Some roomData =>
          let updatedParticipants :=
            List.filter (fun p => negb (hasId (uid u) p))
                        (participantsOf roomData) in
          match updateDoc serverNow room
                  (onlyParticipants updatedParticipants) db with
          | Some db' => (db', Resolved)
          | None => (db, Rejected)
          end
      | None => (db, Resolved)
      end
  | None => (db, Resolved)
  end.

(** Number of roster entries of user [who]. *)
Definition entriesOf (who : string) (ps : list Participant) : nat :=
  length (List.filter (hasId who) ps).

(** The pivot stored in a document. *)
Definition pivotOf (d : Room.Doc)
    : option string * bool * option Z * option Q * option string :=
  (Room.currentTrackId d, Room.isPlaying d, Room.lastActionTime d,
   Room.lastActionSeekPosition d, Room.lastActionByUserId d).

(** ** Notions used in the statements, and sample inputs *)

Definition alice : User := mkUser "A" (Some "alice@example.org").
Definition bob : User := mkUser "B" (Some "bob@example.org").

Definition songX : Song := mkSong "x" "X" "Artist" "https://files/x" 0.
Definition songY : Song := mkSong "y" "Y" "Artist" "https://files/y" 0.

Definition playingX : MusicState :=
  mkMusicState (Some songX) true 0 0 [songX; songY] 1.

(** Alice's render while she is in room ["listening"], playing [x]. *)
Definition aliceInRoom : Render :=
  mkRender (Some alice) (Some "listening") playingX.

(** A document whose last action is Bob's, on track [x]. *)
Definition bobsAction (playing : bool) (t : Z) (p : Q) : Room.Doc :=
  Room.mkDoc "listening" (Some []) (Some "x") playing (Some t) (Some p)
             (Some "B") 0.

(** Every awaited call succeeds; the song file is cached; the sound
    created is number 2. *)
Definition fineEnv : PlayEnv :=
  mkPlayEnv "file:///data/" true true (Some true) true (Some 2%nat) true.

(** A loaded, playing sound reporting position [ms]. *)
Definition loadedAt (ms : Q) : Status := mkStatus true true ms.

(** The rule of C6 for a tolerance [eps]: the status continuation seeks
    only when the calculated position is further than [eps] from the
    position the sound reports. *)
Definition seeksOnlyBeyond (eps : Q) : Prop :=
  forall (r : Render) (soundRef : option Handle) (status : Status)
         (pd : Pending) (h : Handle) (ms : Q),
    In (SetPositionAsync h ms) (onStatus r soundRef (Some status) pd) ->
    (eps < Qabs (pendingPosition pd - positionMillis status / 1000))%Q.

(** The awaits of a [playSong] run that precede the load all succeed:
    stopping and unloading the previous sound, if there is one, and the
    cache lookup. *)
Definition reachesLoad (env : PlayEnv) (soundRef : option Handle) : bool :=
  match soundRef with
  | Some _ => stopOk env && unloadOk env
  | None => true
  end
  && match cacheInfo env with Some _ => true | None => false end.


(** The uri [playSong] loads under [env]. *)
Definition songUrl (env : PlayEnv) (song : Song) : string :=
  match cacheInfo env with
  | Some false => if downloadOk env
                  then (SONG_CACHE_DIR env ++ song_id song)%string
                  else url song
  | _ => (SONG_CACHE_DIR env ++ song_id song)%string
  end.

(** The fact [updateTrack] writes for [song] on behalf of [u]. *)
Definition trackFact (u : User) (song : Song) : Fields :=
  mkFields None (Some (song_id song)) (Some true) true (Some 0%Q)
           (Some (uid u)).

(** A client that has nothing loaded: the queue holds [x] and [y]. *)
Definition nothingLoaded : MusicState :=
  mkMusicState None false 0 0 [songX; songY] 1.

(** The render from which the auto-join effect calls [joinRoom]: the user
    is known, [currentRoom] is still [null]. *)
Definition aliceAtJoin : Render :=
  mkRender (Some alice) None nothingLoaded.


(** The timer callback a call arms, when the call passes the guard. *)
Definition taskOf (k : SeekCall) : option SeekTask :=
  match roomAndUser (call_render k) with
  | Some (room, u) => Some (mkSeekTask room u (call_position k))
  | None => None
  end.

(** Calls in time order, starting no earlier than [prev]. *)
Fixpoint inOrder (prev : Z) (calls : list SeekCall) : Prop :=
  match calls with
  | [] => True
  | k :: rest => prev <= call_time k /\ inOrder (call_time k) rest
  end.

(** A client whose only armed timer is the one of call [k], held by the
    ref. *)
Definition armedFor (i : nat) (k : SeekCall) (task : SeekTask) (next : nat)
    (done : list Effect) : Publisher :=
  mkPublisher (Some i) [mkTimer i (call_time k + 500) task] next done.

(** Three calls at instants 0, 100 and 450 while dragging the scrubber. *)
Definition dragging : list SeekCall :=
  [mkSeekCall 100 aliceInRoom 20; mkSeekCall 450 aliceInRoom 30].

(** A room Bob created and is alone in. *)
Definition bobsRoom : Store :=
  {[ "listening"%string :=
       Room.mkDoc "listening" (Some [mkParticipant "B" (Some "bob@example.org"%string) 5])
                  (Some "x"%string) true (Some 7) (Some 12%Q)
                  (Some "B"%string) 5 ]}.

(** Bob, in room ["listening"], where he is the only participant. *)
Definition bobInRoom : Render :=
  mkRender (Some bob) (Some "listening"%string) playingX.

(** ** Local transport: [pauseSong], [resumeSong], [seekTo] *)

(** Outcomes of the calls the three user actions await: the status
    [getStatusAsync] resolves to ([None]: it rejects), whether the
    transport command ([pauseAsync], [playAsync], [setPositionAsync])
    resolves, whether the store accepts the write.  The widget update
    always resolves. *)
Record ActionEnv := mkActionEnv {
  statusNow : option Status;
  commandOk : bool;
  storeFine : bool
}.

(** [status.positionMillis ? status.positionMillis / 1000 : 0] *)
Definition positionSeconds (status : Status) : Q :=
  if Qeq_bool (positionMillis status) 0 then 0%Q
  else (positionMillis status / 1000)%Q.

(** The widget refresh [if (state.currentSong) await
    showOrUpdateMusicWidget(...)], followed by the rest [k] of the [try]
    block. *)
Definition withWidget (r : Render) (playing : bool) (position : Q)
    (k : list Effect) : list Effect :=
  match currentSong (state r) with
  | Some song => ShowWidget song playing position :: k
  | None => k
  end.

(** [pauseSong] *)
Definition pauseSong (r : Render) (env : ActionEnv)
    (soundRef : option Handle) : list Effect :=
  match soundRef with
  | None => []
  | Some h =>
      GetStatusAsync h ::
      match statusNow env with
      | None => [ConsoleError "Error pausing song:"]
      | Some status =>
          if isLoaded status && status_isPlaying status then
            PauseAsync h ::
            (if commandOk env then
               SetState (SetIsPlaying false) ::
               withWidget r false (currentTime (state r))
                 (fst (updatePlayPauseState r (storeFine env) false
                         (positionSeconds status)))
             else [ConsoleError "Error pausing song:"])
          else []
      end
  end.

(** [resumeSong] *)
Definition resumeSong (r : Render) (env : ActionEnv)
    (soundRef : option Handle) : list Effect :=
  match soundRef with
  | None => []
  | Some h =>
      GetStatusAsync h ::
      match statusNow env with
      | None => [ConsoleError "Error resuming song:"]
      | Some status =>
          if isLoaded status && negb (status_isPlaying status) then
            PlayAsync h ::
            (if commandOk env then
               SetState (SetIsPlaying true) ::
               withWidget r true (currentTime (state r))
                 (fst (updatePlayPauseState r (storeFine env) true
                         (positionSeconds status)))
             else [ConsoleError "Error resuming song:"])
          else []
      end
  end.

(** [seekTo].  The function awaits [setPositionAsync] and the widget
    update before it calls [updateSeekPosition]; [settled] is the instant
    at which those awaits have settled and [updateSeekPosition] runs, and
    [c] is the seek publisher when [seekTo] is called.  While the function
    waits the event loop runs the timers that fall due.  The result is the
    effects [seekTo] issues itself and the seek publisher afterwards. *)
Definition seekTo (r : Render) (env : ActionEnv) (soundRef : option Handle)
    (settled : Z) (time : Q) (c : Publisher) : list Effect * Publisher :=
  match soundRef with
  | None => ([], c)
  | Some h =>
      if commandOk env then
        (SetPositionAsync h (time * 1000)%Q ::
         SetState (SetCurrentTime time) ::
         withWidget r (isPlaying (state r)) time [],
         fst (updateSeekPosition r settled time
                (advance (storeFine env) settled c)))
      else ([SetPositionAsync h (time * 1000)%Q;
             ConsoleError "Error seeking:"],
            advance (storeFine env) settled c)
  end.

(** ** Queue navigation: [skipNext], [skipPrevious] *)

Inductive RepeatMode := RepeatOff | RepeatAll | RepeatOne.

(** What a render holds besides [Render]: the shuffle flag, the repeat
    mode, and the value of the ref [shuffledQueue]. *)
Record Player := mkPlayer {
  player_render : Render;
  isShuffleEnabled : bool;
  repeatMode : RepeatMode;
  shuffledQueue : list Song
}.

(** [state.isShuffleEnabled ? shuffledQueue.current : state.queue] *)
Definition queueToUse (p : Player) : list Song :=
  if isShuffleEnabled p then shuffledQueue p
  else queue (state (player_render p)).

(** [q.findIndex(song => song.id === id)], counting from [i]. *)
Fixpoint findIndexFrom (i : Z) (id : string) (q : list Song) : Z :=
  match q with
  | [] => -1
  | s :: rest =>
      if String.eqb (song_id s) id then i else findIndexFrom (i + 1) id rest
  end.

(** [queueToUse.findIndex(song => song.id === state.currentSong?.id)]:
    without a current song the comparison is with [undefined] and no entry
    matches. *)
Definition currentIndex (p : Player) : Z :=
  match currentSong (state (player_render p)) with
  | Some cur => findIndexFrom 0 (song_id cur) (queueToUse p)
  | None => -1
  end.

(** [q[i]]: [undefined] outside the bounds. *)
Definition at_index (q : list Song) (i : Z) : option Song :=
  if Z.ltb i 0 then None else nth_error q (Z.to_nat i).

(** What a skip decides: the song handed to [playSong] and the song
    handed to [preloadSpecificSong]. *)
Record SkipPlan := mkSkipPlan {
  toPlay : option Song;
  toPreload : option Song
}.

Definition queueLength (p : Player) : Z := Z.of_nat (length (queueToUse p)).

(** The decisions of [skipNext]. *)
Definition skipNextPlan (p : Player) : SkipPlan :=
  match repeatMode p, currentSong (state (player_render p)) with
  | RepeatOne, Some cur => mkSkipPlan (Some cur) None
  | _, _ =>
      if Z.ltb (currentIndex p) (queueLength p - 1) then
        mkSkipPlan (at_index (queueToUse p) (currentIndex p + 1))
          (if Z.ltb (currentIndex p + 2) (queueLength p)
           then at_index (queueToUse p) (currentIndex p + 2) else None)
      else
        match repeatMode p with
        | RepeatAll =>
            if Z.ltb 0 (queueLength p) then
              mkSkipPlan (at_index (queueToUse p) 0)
                (if Z.ltb 1 (queueLength p)
                 then at_index (queueToUse p) 1 else None)
            else mkSkipPlan None None
        | _ => mkSkipPlan None None
        end
  end.

(** The decisions of [skipPrevious]. *)
Definition skipPreviousPlan (p : Player) : SkipPlan :=
  match repeatMode p, currentSong (state (player_render p)) with
  | RepeatOne, Some cur => mkSkipPlan (Some cur) None
  | _, _ =>
      if Z.ltb 0 (currentIndex p) then
        mkSkipPlan (at_index (queueToUse p) (currentIndex p - 1))
          (if Z.ltb 1 (currentIndex p)
           then at_index (queueToUse p) (currentIndex p - 2) else None)
      else
        match repeatMode p with
        | RepeatAll =>
            if Z.ltb 0 (queueLength p) then
              mkSkipPlan (at_index (queueToUse p) (queueLength p - 1))
                (if Z.ltb 1 (queueLength p)
                 then at_index (queueToUse p) (queueLength p - 2) else None)
            else mkSkipPlan None None
        | _ => mkSkipPlan None None
        end
  end.

(** [skipNext] / [skipPrevious]: the [playSong] run on the song decided,
    if any.  ([queueToUse[i]] is [undefined] only outside the bounds, which
    the tests above exclude.) *)
Definition skipRun (plan : SkipPlan) (p : Player) (env : PlayEnv)
    (soundRef : option Handle) : PlayRun :=
  match toPlay plan with
  | Some song => playSong (player_render p) env soundRef song
  | None => mkPlayRun [] [] soundRef
  end.

Definition skipNext (p : Player) := skipRun (skipNextPlan p) p.
Definition skipPrevious (p : Player) := skipRun (skipPreviousPlan p) p.

(** The player after the optimistic update of a [playSong] that obtained
    its sound: same queue and modes, [song] current. *)
Definition nowPlaying (p : Player) (song : Song) : Player :=
  mkPlayer
    (mkRender (user (player_render p)) (currentRoom (player_render p))
              (applyUpdate (SetNowPlaying song) (state (player_render p))))
    (isShuffleEnabled p) (repeatMode p) (shuffledQueue p).

(** The end-of-track branch of the status callback [playSong] registers:
    [if (status.didJustFinish && state.repeatMode !== 'one') skipNext()],
    with [state] and [skipNext] those of the render [p] that called
    [playSong]. *)
Definition onDidJustFinish (p : Player) : SkipPlan :=
  match repeatMode p with
  | RepeatOne => mkSkipPlan None None
  | _ => skipNextPlan p
  end.

(** ** Queue and playlist editing *)

(** [q.filter((_, i) => i !== index)], counting from [i].  [index] is the
    number passed in; only an integer inside the bounds matches. *)
Fixpoint dropIndexFrom (i index : Z) (q : list Song) : list Song :=
  match q with
  | [] => []
  | s :: rest =>
      if Z.eqb i index then dropIndexFrom (i + 1) index rest
      else s :: dropIndexFrom (i + 1) index rest
  end.

Definition withQueue (q : list Song) (prev : MusicState) : MusicState :=
  mkMusicState (currentSong prev) (isPlaying prev) (currentTime prev)
               (duration prev) q (volume prev).

(** [addToQueue] *)
Definition addToQueue (song : Song) (prev : MusicState) : MusicState :=
  withQueue (queue prev ++ [song]) prev.

(** [removeFromQueue] *)
Definition removeFromQueue (index : Z) (prev : MusicState) : MusicState :=
  withQueue (dropIndexFrom 0 index (queue prev)) prev.

(** [interface Playlist] *)
Record Playlist := mkPlaylist {
  playlist_id : string;
  playlist_name : string;
  songs : list Song
}.

(** [addToPlaylist], on the [playlists] field. *)
Definition addToPlaylist (playlistId : string) (song : Song)
    (playlists : list Playlist) : list Playlist :=
  List.map (fun pl => if String.eqb (playlist_id pl) playlistId
                      then mkPlaylist (playlist_id pl) (playlist_name pl)
                                      (songs pl ++ [song])
                      else pl)
           playlists.

(** ** Likes *)

(** [interface SongLike] *)
Record SongLike := mkSongLike {
  like_songId : string;
  like_userId : string;
  like_userName : string;
  like_timestamp : Z
}.

(** The update [likeSong] sends: the like stored under
    [likes.<song id>.<user id>] of the room document, with [lastUpdated]
    and [updatedBy]. *)
Record LikeWrite := mkLikeWrite {
  lw_room : string;
  lw_songId : string;
  lw_userId : string;
  lw_like : SongLike;
  lw_lastUpdated : Z;
  lw_updatedBy : string
}.

Definition sameLike (songId userId : string) (l : SongLike) : bool :=
  String.eqb (like_songId l) songId && String.eqb (like_userId l) userId.

(** [likeSong]: the write issued, if any, and [currentSongLikes]
    afterwards.  [stamped] and [updated] are the two readings of
    [Date.now()]; a rejected write skips the local update. *)
Definition likeSong (r : Render) (storeOk : bool) (stamped updated : Z)
    (song : Song) (likes : list SongLike) : option LikeWrite * list SongLike :=
  match roomAndUser r with
  | None => (None, likes)
  | Some (room, u) =>
      let like := mkSongLike (song_id song) (uid u) (displayName u) stamped in
      (Some (mkLikeWrite room (song_id song) (uid u) like updated (uid u)),
       if storeOk
       then List.filter (fun l => negb (sameLike (song_id song) (uid u) l))
                        likes ++ [like]
       else likes)
  end.

(** [getCurrentSongLikes] *)
Definition getCurrentSongLikes (st : MusicState) (likes : list SongLike)
    : list SongLike :=
  match currentSong st with
  | None => []
  | Some cur =>
      List.filter (fun l => String.eqb (like_songId l) (song_id cur)) likes
  end.

(** ** The roster listener *)

(** The callback of the participants effect: on a notification for an
    existing document the roster shown becomes the stored one without the
    local user; otherwise it stays. *)
Definition participantsListener (u : User) (snap : option Room.Doc)
    (shown : list Participant) : list Participant :=
  match snap with
  | Some roomData =>
      List.filter (fun p => negb (hasId (uid u) p)) (participantsOf roomData)
  | None => shown
  end.

(** ** The seek gesture of the mini player *)

Inductive GestureState := BEGAN | ACTIVE | END | CANCELLED | UNDETERMINED.

(** What [handleSeekGesture] asks of [seekTo]: nothing, a position, or
    [NaN] (the quotient [0 / 0]). *)
Inductive SeekRequest := NoSeek | SeekAt (time : Q) | SeekNaN.

(** [Math.max(0, Math.min(1, x / progressBarWidth))]; [None] is [NaN].
    A zero width makes the quotient infinite, or [NaN] when [x] is zero
    too. *)
Definition seekProgress (x progressBarWidth : Q) : option Q :=
  if Qeq_bool progressBarWidth 0 then
    if Qeq_bool x 0 then None
    else if Qle_bool x 0 then Some 0%Q else Some 1%Q
  else Some (Qmax 0 (Qmin 1 (x / progressBarWidth))).

(** [handleSeekGesture]: [x] is the touch abscissa, [width] the window
    width, [duration] the duration the player shows. *)
Definition handleSeekGesture (gesture : GestureState) (x width duration : Q)
    : SeekRequest :=
  match gesture with
  | ACTIVE =>
      if Qle_bool duration 0 then NoSeek
      else match seekProgress x (width - 32) with
           | Some progress => SeekAt (progress * duration)
           | None => SeekNaN
           end
  | _ => NoSeek
  end.

(** ** The cached song list *)

Definition CACHE_DURATION : Z := 24 * 60 * 60 * 1000.

(** What [loadSongsFromStorage] does first: nothing without a user, the
    cached list as queue, or a listing of the storage bucket. *)
Inductive LoadDecision :=
| NoUser
| UseCached (cached : list Song)
| ListStorage.

Section SongCache.

(** [parseInt] on the stored timestamp ([None]: [NaN]) and [JSON.parse]
    on the stored list ([None]: it throws, or yields [null]). *)
Variable parseInt : string -> option Z.
Variable parseSongs : string -> option (list Song).

(** [loadCachedSongs], at instant [now], for the two items read from
    [AsyncStorage] ([None]: no such item). *)
Definition loadCachedSongs (now : Z) (cachedSongs cacheTimestamp : option string)
    : option (list Song) :=
  match cachedSongs, cacheTimestamp with
  | Some songsData, Some stamp =>
      if truthy cachedSongs && truthy cacheTimestamp then
        match parseInt stamp with
        | Some timestamp =>
            if Z.ltb CACHE_DURATION (now - timestamp) then None
            else parseSongs songsData
        | None => parseSongs songsData
        end
      else None
  | _, _ => None
  end.

(** The head of [loadSongsFromStorage]. *)
Definition loadSongsFromStorage (r : Render) (now : Z)
    (cachedSongs cacheTimestamp : option string) : LoadDecision :=
  match user r with
  | None => NoUser
  | Some _ =>
      match loadCachedSongs now cachedSongs cacheTimestamp with
      | Some cached =>
          if Nat.ltb 0 (length cached) then UseCached cached else ListStorage
      | None => ListStorage
      end
  end.

End SongCache.

(** The play and pause commands. *)
Definition is_playPause (e : Effect) : bool :=
  match e with
  | PlayAsync _ | PauseAsync _ => true
  | _ => false
  end.

(** What a user action does beyond asking for the status: a play or pause
    command, a store write, a state update. *)
Definition is_action (e : Effect) : bool :=
  is_playPause e || is_write e || is_state_change e.

(** The shuffle effect.  [otherSongs]: the queue without the entry at the
    index of the current song. *)
Definition otherSongs (st : MusicState) : list Song :=
  dropIndexFrom 0
    match currentSong st with
    | Some cur => findIndexFrom 0 (song_id cur) (queue st)
    | None => -1
    end
    (queue st).

(** [shuffledQueue.current] as the effect leaves it when shuffle is on and
    the queue is not empty: the current song, if any, followed by
    [otherSongs] in the order the random sort produced. *)
Definition Reshuffled (st : MusicState) (ref : list Song) : Prop :=
  exists shuffled,
    Permutation shuffled (otherSongs st)
    /\ ref = match currentSong st with
             | Some cur => cur :: shuffled
             | None => shuffled
             end.

(** Every roster of the store holds each participant id at most once. *)
Definition Keyed (db : Store) : Prop :=
  forall room d, db !! room = Some d ->
                 NoDup (List.map participant_id (participantsOf d)).

(** The states the seek publisher can be in: no timer is armed (the ref
    is empty, or still holds the handle of a timer that has fired: the
    code never resets it), or one timer is armed and the ref holds its
    handle. *)
Definition Tidy (c : Publisher) : Prop :=
  timers c = []
  \/ exists t, timers c = [t] /\ seekDebounceRef c = Some (timer_id t).

(** The shapes [data.lastActionSeekPosition] can have in a snapshot. *)
Inductive RawPosition :=
| PositionMissing
| PositionNull
| PositionNumber (p : Q).

(** How the field enters [Room.Doc]: [undefined] fails the listener's test
    [!== undefined]; [null] passes it and adds as 0. *)
Definition readPosition (raw : RawPosition) : option Q :=
  match raw with
  | PositionMissing => None
  | PositionNull => Some 0%Q
  | PositionNumber p => Some p
  end.

(** * Properties *)

(** ** The listener's own turn *)

Lemma sameId_true (a : option string) (b : string) :
  sameId a b = true <-> a = Some b.
Proof.
  destruct a as [s|]; simpl.
  - rewrite String.eqb_eq. split; [intros ->; reflexivity | congruence].
  - split; discriminate.
Qed.

Lemma onSnapshot_echo r u soundRef now data :
  Room.lastActionByUserId data = Some (uid u) ->
  onSnapshot r u soundRef now (Some data) = mkSync None None.
Proof.
  intros Hself. unfold onSnapshot.
  replace (sameId (Room.lastActionByUserId data) (uid u)) with true;
    [reflexivity | symmetry; apply sameId_true; exact Hself].
Qed.

Lemma onSnapshot_foreign r u soundRef now data :
  Room.lastActionByUserId data <> Some (uid u) ->
  onSnapshot r u soundRef now (Some data)
  = mkSync (trackChange r data) (pivotRequest soundRef now data).
Proof.
  intros Hother. unfold onSnapshot.
  destruct (sameId (Room.lastActionByUserId data) (uid u)) eqn:E;
    [apply sameId_true in E; contradiction | reflexivity].
Qed.

Lemma pivotRequest_present h now data t p :
  Room.lastActionTime data = Some t ->
  Room.lastActionSeekPosition data = Some p ->
  pivotRequest (Some h) now data
  = Some (mkPending h (calculatedPosition now t p) (Room.isPlaying data)).
Proof. intros Ht Hp. unfold pivotRequest. rewrite Ht, Hp. reflexivity. Qed.

(** The seeks of the status continuation: one, to the calculated
    position, whenever the sound reports loaded. *)
Lemma onStatus_seeks r h status pd :
  isLoaded status = true ->
  List.filter is_seek (onStatus r (Some h) (Some status) pd)
  = [SetPositionAsync h (pendingPosition pd * 1000)%Q].
Proof.
  intros Hl. unfold onStatus. rewrite Hl. simpl.
  destruct (Bool.eqb (pendingIsPlaying pd) (isPlaying (state r)));
    [reflexivity |].
  destruct (pendingIsPlaying pd); reflexivity.
Qed.

(** C2: a change notification whose [lastActionByUserId] is the local
    user's id makes the reconciler issue nothing at all, whatever the other
    fields, the audio handle, the clock and the schedule are: no transport
    command, no state setter, no write; the local playback state is left
    as it was. *)
Theorem C2_self_echo_issues_nothing
    (r : Render) (u : User) (env : PlayEnv) (sched : Schedule)
    (soundRef : option Handle) (now : Z) (data : Room.Doc)
    (st : option Status) :
  Room.lastActionByUserId data = Some (uid u) ->
  reconcile r u env sched soundRef now (Some data) st = []
  /\ List.filter is_transport
       (reconcile r u env sched soundRef now (Some data) st) = []
  /\ forall s : MusicState,
       applyEffects (reconcile r u env sched soundRef now (Some data) st) s = s.
Proof.
  intros Hself.
  assert (E : reconcile r u env sched soundRef now (Some data) st = []).
  { unfold reconcile. rewrite (onSnapshot_echo r u soundRef now data Hself).
    reflexivity. }
  rewrite E. repeat split.
Qed.

Lemma C2_self_echo_issues_nothing_witness :
  reconcile aliceInRoom alice fineEnv StatusFirst (Some 1%nat) 5000
    (Some (Room.mkDoc "listening" (Some []) (Some "y") false (Some 0)
                      (Some 30%Q) (Some "A") 0))
    (Some (loadedAt 0)) = [].
Proof.
  apply (C2_self_echo_issues_nothing aliceInRoom alice fineEnv StatusFirst
           (Some 1%nat) 5000
           (Room.mkDoc "listening" (Some []) (Some "y") false (Some 0)
                       (Some 30%Q) (Some "A") 0)
           (Some (loadedAt 0))).
  reflexivity.
Defined.

(** ** The derived position *)

Lemma elapsedTime_nonneg (now t : Z) :
  t <= now -> (0 <= elapsedTime now t)%Q.
Proof.
  intros H. unfold elapsedTime, Qle, Qdiv, Qmult, Qinv, inject_Z.
  simpl. lia.
Qed.

Lemma elapsedTime_zero (now t : Z) :
  (elapsedTime now t == 0)%Q -> now = t.
Proof.
  unfold elapsedTime, Qeq, Qdiv, Qmult, Qinv, inject_Z. simpl. lia.
Qed.

Lemma Qplus_fixed (p e : Q) : (p + e == p)%Q -> (e == 0)%Q.
Proof.
  intros E. apply (Qplus_inj_l e 0 p). rewrite E. ring.
Qed.

(** The listener's position does not look at [isPlaying]: for a pivot that
    says paused it still adds the time elapsed since the pivot, so it is
    the pivot position only at the pivot instant itself. *)
Lemma paused_pivot_position (h : Handle) (now t : Z) (p : Q)
    (data : Room.Doc) :
  Room.isPlaying data = false ->
  Room.lastActionTime data = Some t ->
  Room.lastActionSeekPosition data = Some p ->
  exists pd,
    pivotRequest (Some h) now data = Some pd
    /\ (pendingPosition pd == p + inject_Z (now - t) / 1000)%Q
    /\ ((pendingPosition pd == p)%Q -> now = t).
Proof.
  intros _ Ht Hp. eexists. split; [apply pivotRequest_present; eassumption |].
  simpl. split; [reflexivity |].
  intros E. apply elapsedTime_zero. eapply Qplus_fixed. exact E.
Qed.

(** C1 (the code at the failing input): Bob paused track [x] at position
    10 s at instant 0; Alice, on the same track with a loaded sound,
    receives the document at instant 5000.  Her reconciler pauses, and
    seeks to 15000 ms, not to the pivot position 10000 ms. *)
Theorem C1_paused_pivot_seek_adds_elapsed :
  reconcile aliceInRoom alice fineEnv StatusFirst (Some 1%nat) 5000
    (Some (bobsAction false 0 10)) (Some (loadedAt 10000))
  = [GetStatusAsync 1%nat;
     SetPositionAsync 1%nat (calculatedPosition 5000 0 10 * 1000)%Q;
     SetState (SetCurrentTime (calculatedPosition 5000 0 10));
     PauseAsync 1%nat;
     SetState (SetIsPlaying false)]
  /\ (calculatedPosition 5000 0 10 * 1000 == 15000)%Q
  /\ ~ (calculatedPosition 5000 0 10 * 1000 == 10 * 1000)%Q.
Proof.
  split; [reflexivity |]. split; [reflexivity | discriminate].
Qed.

(** C3 as stated fails: with the pivot instant ahead of the local clock
    (pivot at 2000, [now] = 1000, position 5 s) the listener derives 4 s,
    while [p + max(0, (now - t) / 1000)] is 5 s. *)
Lemma C3_counterexample_negative_elapsed :
  Room.isPlaying (bobsAction true 2000 5) = true
  /\ pivotRequest (Some 1%nat) 1000 (bobsAction true 2000 5)
     = Some (mkPending 1%nat (calculatedPosition 1000 2000 5) true)
  /\ (calculatedPosition 1000 2000 5 == 4)%Q
  /\ ~ (calculatedPosition 1000 2000 5
        == 5 + Qmax 0 (inject_Z (1000 - 2000) / 1000))%Q.
Proof.
  split; [reflexivity |]. split; [reflexivity |].
  split; [reflexivity | discriminate].
Qed.

(** C3 (amended): for a pivot [(t, p)] that says playing and any [now],
    the position the listener derives is [p + (now - t) / 1000], with no
    lower bound on the elapsed term, and so is the result of
    [calculateCurrentPosition]; whenever [now >= t] this equals
    [p + max(0, (now - t) / 1000)]. *)
Theorem C3_playing_position_is_pivot_plus_elapsed
    (h : Handle) (now t : Z) (p : Q) (data : Room.Doc) :
  Room.isPlaying data = true ->
  Room.lastActionTime data = Some t ->
  Room.lastActionSeekPosition data = Some p ->
  exists pd,
    pivotRequest (Some h) now data = Some pd
    /\ (pendingPosition pd == p + inject_Z (now - t) / 1000)%Q
    /\ (calculateCurrentPosition now (Some t) p
        == p + inject_Z (now - t) / 1000)%Q
    /\ (t <= now ->
        (pendingPosition pd == p + Qmax 0 (inject_Z (now - t) / 1000))%Q).
Proof.
  intros _ Ht Hp. eexists. split; [apply pivotRequest_present; eassumption |].
  simpl. split; [reflexivity |]. split; [reflexivity |].
  intros Hle. unfold calculatedPosition.
  rewrite (Q.max_r 0 (inject_Z (now - t) / 1000));
    [reflexivity | apply (elapsedTime_nonneg now t Hle)].
Qed.

Lemma C3_playing_position_is_pivot_plus_elapsed_witness :
  exists pd,
    pivotRequest (Some 1%nat) 7000 (bobsAction true 2000 5) = Some pd
    /\ (pendingPosition pd == 5 + inject_Z (7000 - 2000) / 1000)%Q
    /\ (pendingPosition pd == 5 + Qmax 0 (inject_Z (7000 - 2000) / 1000))%Q.
Proof.
  destruct (C3_playing_position_is_pivot_plus_elapsed 1%nat 7000 2000 5
              (bobsAction true 2000 5) eq_refl eq_refl eq_refl)
    as (pd & Hreq & Hpos & _ & Hclamped).
  exists pd. split; [exact Hreq |]. split; [exact Hpos |].
  apply Hclamped. lia.
Defined.

(** ** Seeking on the same track *)

(** C6 as stated fails for every tolerance: Bob's playing pivot (0, 10 s)
    read at instant 5000 gives 15 s; Alice's sound already reports
    15000 ms, and the seek is issued all the same. *)
Lemma C6_counterexample_seek_within_tolerance :
  List.filter is_seek
    (reconcile aliceInRoom alice fineEnv StatusFirst (Some 1%nat) 5000
       (Some (bobsAction true 0 10)) (Some (loadedAt 15000)))
  = [SetPositionAsync 1%nat (calculatedPosition 5000 0 10 * 1000)%Q]
  /\ (calculatedPosition 5000 0 10 == positionMillis (loadedAt 15000) / 1000)%Q
  /\ ~ exists eps : Q, (0 <= eps)%Q /\ seeksOnlyBeyond eps.
Proof.
  split; [reflexivity |]. split; [reflexivity |].
  intros [eps [Hpos Hrule]].
  specialize (Hrule aliceInRoom (Some 1%nat) (loadedAt 15000)
                (mkPending 1%nat (calculatedPosition 5000 0 10) true)
                1%nat (calculatedPosition 5000 0 10 * 1000)%Q).
  assert (Hin : In (SetPositionAsync 1%nat (calculatedPosition 5000 0 10 * 1000)%Q)
                   (onStatus aliceInRoom (Some 1%nat) (Some (loadedAt 15000))
                      (mkPending 1%nat (calculatedPosition 5000 0 10) true)))
    by (left; reflexivity).
  specialize (Hrule Hin).
  assert (Hzero : (Qabs (pendingPosition
                           (mkPending 1%nat (calculatedPosition 5000 0 10) true)
                         - positionMillis (loadedAt 15000) / 1000) == 0)%Q)
    by reflexivity.
  rewrite Hzero in Hrule.
  exact (Qlt_not_le _ _ Hrule Hpos).
Qed.

(** C6 (amended): in the same-track step, once the sound reports loaded
    the reconciler issues exactly one seek, to the calculated position,
    whatever position the sound reports; when the sound reports not loaded
    it issues no seek. *)
Theorem C6_seek_is_unconditional
    (r : Render) (h : Handle) (status : Status) (pd : Pending) :
  (isLoaded status = true ->
   List.filter is_seek (onStatus r (Some h) (Some status) pd)
   = [SetPositionAsync h (pendingPosition pd * 1000)%Q])
  /\ (isLoaded status = false ->
      onStatus r (Some h) (Some status) pd = []).
Proof.
  split.
  - apply onStatus_seeks.
  - intros Hl. unfold onStatus. rewrite Hl. reflexivity.
Qed.

Lemma C6_seek_is_unconditional_witness :
  List.filter is_seek
    (onStatus aliceInRoom (Some 1%nat) (Some (loadedAt 15000))
       (mkPending 1%nat (calculatedPosition 5000 0 10) true))
  = [SetPositionAsync 1%nat (calculatedPosition 5000 0 10 * 1000)%Q]
  /\ onStatus aliceInRoom (Some 1%nat) (Some (mkStatus false false 0))
       (mkPending 1%nat (calculatedPosition 5000 0 10) true) = [].
Proof.
  split.
  - apply (C6_seek_is_unconditional aliceInRoom 1%nat (loadedAt 15000)
             (mkPending 1%nat (calculatedPosition 5000 0 10) true)).
    reflexivity.
  - apply (C6_seek_is_unconditional aliceInRoom 1%nat (mkStatus false false 0)
             (mkPending 1%nat (calculatedPosition 5000 0 10) true)).
    reflexivity.
Defined.

(** ** Track changes *)

Lemma trackChange_resolves (r : Render) (data : Room.Doc) (tid : string)
    (song : Song) :
  Room.currentTrackId data = Some tid ->
  tid <> EmptyString ->
  option_map song_id (currentSong (state r)) <> Some tid ->
  List.find (fun s => String.eqb (song_id s) tid) (queue (state r)) = Some song ->
  trackChange r data = Some song.
Proof.
  intros Htid Hne Hdiff Hfind. unfold trackChange. rewrite Htid. simpl.
  destruct (String.eqb_spec tid EmptyString); [contradiction |].
  destruct (sameId (option_map song_id (currentSong (state r))) tid) eqn:E.
  - apply sameId_true in E. contradiction.
  - simpl. exact Hfind.
Qed.

Lemma find_resolved_id (tid : string) (q : list Song) (song : Song) :
  List.find (fun s => String.eqb (song_id s) tid) q = Some song ->
  song_id song = tid /\ In song q.
Proof.
  intros H. apply List.find_some in H. destruct H as [Hin Heq].
  apply String.eqb_eq in Heq. split; assumption.
Qed.


Lemma guardedUpdate_writes room f ok msg :
  List.filter is_write (guardedUpdate room f ok msg) = [UpdateDoc room f].
Proof. unfold guardedUpdate. destruct ok; reflexivity. Qed.





Lemma filter_skip {A} (f : A -> bool) (x : A) (l : list A) :
  f x = false -> List.filter f (x :: l) = List.filter f l.
Proof. intros H. simpl. rewrite H. reflexivity. Qed.








Lemma roomAndUser_outside (r : Render) :
  user r = None \/ currentRoom r = None \/ currentRoom r = Some EmptyString ->
  roomAndUser r = None.
Proof.
  unfold roomAndUser. intros [Hu | [Hr | Hr]].
  - rewrite Hu. reflexivity.
  - rewrite Hr. destruct (user r); reflexivity.
  - rewrite Hr. destruct (user r); reflexivity.
Qed.



(** ** Publishing outside a room *)

(** C10: when the client is not in a room or has no authenticated user,
    each publish operation returns at its guard: the play/pause publisher
    and the track publisher issue nothing, the seek publisher leaves
    timers, ref and issued effects as they were, and all three settle
    without an error. *)
Theorem C10_publish_outside_room_is_noop (r : Render) (ok : bool) :
  user r = None \/ currentRoom r = None ->
  (forall (playing : bool) (position : Q),
      updatePlayPauseState r ok playing position = ([], Resolved))
  /\ (forall (now : Z) (position : Q) (c : Publisher),
         updateSeekPosition r now position c = (c, Resolved)
         /\ advance ok (now + 500) (fst (updateSeekPosition r now position c))
            = advance ok (now + 500) c)
  /\ (forall song : Song, updateTrack r ok song = ([], Resolved)).
Proof.
  intros Hout.
  assert (E : roomAndUser r = None).
  { apply roomAndUser_outside. destruct Hout as [H | H]; [left | right; left];
      exact H. }
  unfold updatePlayPauseState, updateSeekPosition, updateTrack.
  rewrite E. repeat split.
Qed.

Lemma C10_publish_outside_room_is_noop_witness :
  updatePlayPauseState aliceAtJoin true true 12 = ([], Resolved)
  /\ updateSeekPosition aliceAtJoin 1000 42 (idle 1 [])
     = (idle 1 [], Resolved)
  /\ updateTrack (mkRender None (Some "listening"%string) playingX) false songX
     = ([], Resolved).
Proof.
  split; [| split].
  - apply (C10_publish_outside_room_is_noop aliceAtJoin true).
    right. reflexivity.
  - apply (C10_publish_outside_room_is_noop aliceAtJoin true).
    right. reflexivity.
  - apply (C10_publish_outside_room_is_noop
             (mkRender None (Some "listening"%string) playingX) false).
    left. reflexivity.
Defined.

(** ** Debounced seek publishing *)

Lemma last_cons_default {A} (l : list A) (a d : A) :
  List.last (a :: l) d = List.last l a.
Proof.
  revert a d. induction l as [|b l IH]; intros a d; [reflexivity |].
  change (List.last (a :: b :: l) d) with (List.last (b :: l) d).
  rewrite (IH b d). symmetry. apply IH.
Qed.

Lemma advance_not_due ok now i k task next done :
  now < call_time k + 500 ->
  advance ok now (armedFor i k task next done) = armedFor i k task next done.
Proof.
  intros Hlt. unfold advance, armedFor. simpl.
  destruct (Z.leb_spec (call_time k + 500) now) as [Hle | _]; [lia |].
  simpl. rewrite List.app_nil_r. reflexivity.
Qed.

Lemma advance_due ok now i k task next done :
  call_time k + 500 <= now ->
  advance ok now (armedFor i k task next done)
  = mkPublisher (Some i) [] next (done ++ seekCallback ok task).
Proof.
  intros Hle. unfold advance, armedFor. simpl.
  destruct (Z.leb_spec (call_time k + 500) now) as [_ | Hlt]; [| lia].
  simpl. rewrite List.app_nil_r. reflexivity.
Qed.

(** A call on a client with one armed timer held by the ref: the timer is
    cleared and a new one armed, 500 ms after the call. *)
Lemma updateSeekPosition_rearms i k0 task0 next done k task :
  taskOf k = Some task ->
  fst (updateSeekPosition (call_render k) (call_time k) (call_position k)
         (armedFor i k0 task0 next done))
  = armedFor next k task (S next) done.
Proof.
  unfold taskOf, updateSeekPosition. intros Htask.
  destruct (roomAndUser (call_render k)) as [[room u]|]; [| discriminate].
  injection Htask as <-. unfold armedFor, clearTimeout. simpl.
  rewrite Nat.eqb_refl. reflexivity.
Qed.

Lemma advance_Tidy ok now c :
  Tidy c ->
  Tidy (advance ok now c)
  /\ nextTimer (advance ok now c) = nextTimer c.
Proof.
  intros [Hnone | (t & Hone & Href)]; unfold advance, Tidy; simpl;
    (split; [| reflexivity]).
  - rewrite Hnone. left. reflexivity.
  - rewrite Hone. simpl.
    destruct (Z.leb (timer_due t) now); simpl;
      [left; reflexivity | right; exists t; split; [reflexivity | exact Href]].
Qed.

(** A call that passes the guard, on any state the publisher can be in:
    whatever timer was armed is cleared and the only timer armed
    afterwards is the call's own, due 500 ms after the call. *)
Lemma updateSeekPosition_Tidy_arms c k task :
  Tidy c ->
  taskOf k = Some task ->
  fst (updateSeekPosition (call_render k) (call_time k) (call_position k) c)
  = armedFor (nextTimer c) k task (S (nextTimer c)) (issued c).
Proof.
  unfold taskOf, updateSeekPosition. intros Htidy Htask.
  destruct (roomAndUser (call_render k)) as [[room u]|]; [| discriminate].
  injection Htask as <-. unfold armedFor. cbn [fst].
  destruct Htidy as [Hnone | (t & Hone & Href)].
  - rewrite Hnone. destruct (seekDebounceRef c); reflexivity.
  - rewrite Hone, Href. unfold clearTimeout. simpl.
    rewrite Nat.eqb_refl. reflexivity.
Qed.

(** The publisher stays in such a state whatever is called and however
    the clock advances. *)
Lemma seekSession_Tidy ok calls :
  forall c, Tidy c -> Tidy (seekSession ok calls c).
Proof.
  induction calls as [|k calls IH]; intros c Htidy; [exact Htidy |].
  simpl. apply IH.
  destruct (advance_Tidy ok (call_time k) c Htidy) as [Hadv _].
  destruct (taskOf k) as [task|] eqn:E.
  - rewrite (updateSeekPosition_Tidy_arms _ k task Hadv E).
    right. eexists. split; reflexivity.
  - unfold taskOf in E. unfold updateSeekPosition.
    destruct (roomAndUser (call_render k)) as [[room u]|];
      [discriminate | exact Hadv].
Qed.

(** Calls that all fall before [start + 500], made in time order from a
    client whose armed timer belongs to a call made at or after [start]:
    no timer fires in between, and the one left armed belongs to the last
    call. *)
Lemma seekSession_keeps_one ok start :
  forall (rest : list SeekCall) (i : nat) (cur : SeekCall) (task : SeekTask)
         (next : nat) (done : list Effect),
    start <= call_time cur ->
    inOrder (call_time cur) rest ->
    Forall (fun k => call_time k < start + 500) rest ->
    Forall (fun k => taskOf k <> None) rest ->
    taskOf cur = Some task ->
    exists i' task' next',
      taskOf (List.last rest cur) = Some task'
      /\ seekSession ok rest (armedFor i cur task next done)
         = armedFor i' (List.last rest cur) task' next' done.
Proof.
  induction rest as [|k rest IH]; intros i cur task next done
                                         Hstart Hord Hwin Hroom Htask.
  - exists i, task, next. split; [exact Htask | reflexivity].
  - destruct Hord as [Hle Hord].
    apply List.Forall_cons_iff in Hwin. destruct Hwin as [Hk Hwin].
    apply List.Forall_cons_iff in Hroom. destruct Hroom as [Hkroom Hroom].
    destruct (taskOf k) as [taskk|] eqn:Etask; [| contradiction].
    rewrite last_cons_default.
    change (seekSession ok (k :: rest) (armedFor i cur task next done))
      with (seekSession ok rest
              (fst (updateSeekPosition (call_render k) (call_time k)
                      (call_position k)
                      (advance ok (call_time k)
                         (armedFor i cur task next done))))).
    rewrite advance_not_due by lia.
    rewrite (updateSeekPosition_rearms i cur task next done k taskk Etask).
    apply IH; [lia | exact Hord | exact Hwin | exact Hroom | exact Etask].
Qed.

(** C4: let [first :: rest] be seek-publish calls made in time order by a
    client in a room, all before [call_time first + 500], starting from
    any state the seek publisher can be in (no timer armed, with the ref
    empty or still holding the handle of a timer that fired; or a timer of
    an earlier call armed and held by the ref).  While the calls are made
    nothing is written beyond what had been issued when the first call
    was made; once the clock passes 500 ms after the last call, exactly
    one more write has been issued, carrying the position (and room and
    user) of the last call, and no timer stays armed.  Moreover every
    call clears the timer that is armed, if any, before arming its own,
    so at most one debounce timer is armed at any time. *)
Theorem C4_debounce_coalesces
    (ok : bool) (first : SeekCall) (rest : list SeekCall)
    (c : Publisher) (T : Z) :
  Tidy c ->
  Forall (fun k => taskOf k <> None) (first :: rest) ->
  inOrder (call_time first) rest ->
  Forall (fun k => call_time k < call_time first + 500) rest ->
  call_time (List.last rest first) + 500 <= T ->
  (exists room u,
      roomAndUser (call_render (List.last rest first)) = Some (room, u)
      /\ issued (seekSession ok (first :: rest) c)
         = issued (advance ok (call_time first) c)
      /\ List.filter is_write
           (issued (advance ok T (seekSession ok (first :: rest) c)))
         = List.filter is_write (issued (advance ok (call_time first) c))
           ++ [UpdateDoc room
                 (mkFields None None None true
                    (Some (call_position (List.last rest first)))
                    (Some (uid u)))]
      /\ timers (advance ok T (seekSession ok (first :: rest) c)) = [])
  /\ (forall c' k task,
         Tidy c' ->
         taskOf k = Some task ->
         timers (fst (updateSeekPosition (call_render k) (call_time k)
                        (call_position k) c'))
         = [mkTimer (nextTimer c') (call_time k + 500) task]
         /\ seekDebounceRef
              (fst (updateSeekPosition (call_render k) (call_time k)
                      (call_position k) c'))
            = Some (nextTimer c')).
Proof.
  intros Htidy Hroom Hord Hwin HT. split.
  - apply List.Forall_cons_iff in Hroom. destruct Hroom as [Hfirst Hroom].
    destruct (taskOf first) as [task|] eqn:Etask; [| contradiction].
    destruct (advance_Tidy ok (call_time first) c Htidy) as [Hadv _].
    change (seekSession ok (first :: rest) c)
      with (seekSession ok rest
              (fst (updateSeekPosition (call_render first) (call_time first)
                      (call_position first)
                      (advance ok (call_time first) c)))).
    rewrite (updateSeekPosition_Tidy_arms _ first task Hadv Etask).
    destruct (seekSession_keeps_one ok (call_time first) rest
                (nextTimer (advance ok (call_time first) c)) first task
                (S (nextTimer (advance ok (call_time first) c)))
                (issued (advance ok (call_time first) c))
                (Z.le_refl _) Hord Hwin Hroom Etask)
      as (i' & task' & next' & Hlast & Hrun).
    rewrite Hrun. rewrite (advance_due ok T i' _ task' next' _ HT).
    unfold taskOf in Hlast.
    destruct (roomAndUser (call_render (List.last rest first)))
      as [[room u]|]; [| discriminate].
    injection Hlast as <-.
    exists room, u. split; [reflexivity |]. split; [reflexivity |].
    split; [| reflexivity].
    cbn [issued]. rewrite List.filter_app. unfold seekCallback.
    rewrite guardedUpdate_writes. reflexivity.
  - intros c' k task Htidy' Htask.
    rewrite (updateSeekPosition_Tidy_arms c' k task Htidy' Htask).
    split; reflexivity.
Qed.

(** A client whose first window is over: the ref still holds the handle
    of the timer that fired, one write has been issued. *)
Lemma C4_debounce_coalesces_witness :
  List.filter is_write
    (issued (advance true 950
               (seekSession true (mkSeekCall 0 aliceInRoom 10 :: dragging)
                  (mkPublisher (Some 3%nat) [] 4
                     [UpdateDoc "listening" (trackFact alice songX)]))))
  = [UpdateDoc "listening" (trackFact alice songX);
     UpdateDoc "listening"
       (mkFields None None None true (Some 30%Q) (Some "A"%string))].
Proof.
  assert (Htidy : Tidy (mkPublisher (Some 3%nat) [] 4
                          [UpdateDoc "listening" (trackFact alice songX)])).
  { left. reflexivity. }
  assert (Hroom : Forall (fun k => taskOf k <> None)
                    (mkSeekCall 0 aliceInRoom 10 :: dragging)).
  { repeat constructor; discriminate. }
  assert (Hord : inOrder (call_time (mkSeekCall 0 aliceInRoom 10)) dragging).
  { simpl. lia. }
  assert (Hwin : Forall (fun k => call_time k
                                  < call_time (mkSeekCall 0 aliceInRoom 10) + 500)
                   dragging).
  { repeat constructor; simpl; lia. }
  assert (HT : call_time (List.last dragging (mkSeekCall 0 aliceInRoom 10)) + 500
               <= 950).
  { simpl. lia. }
  destruct (C4_debounce_coalesces true (mkSeekCall 0 aliceInRoom 10) dragging
              (mkPublisher (Some 3%nat) [] 4
                 [UpdateDoc "listening" (trackFact alice songX)])
              950 Htidy Hroom Hord Hwin HT)
    as [(room & u & Htarget & _ & Hwrites & _) _].
  simpl in Htarget. injection Htarget as <- <-. exact Hwrites.
Defined.

(** ** Room membership *)

Lemma find_none_entries (who : string) (ps : list Participant) :
  List.find (hasId who) ps = None -> entriesOf who ps = 0%nat.
Proof.
  unfold entriesOf. induction ps as [|p ps IH]; simpl; [reflexivity |].
  destruct (hasId who p); [discriminate | exact IH].
Qed.

Lemma find_some_entries (who : string) (ps : list Participant) (p : Participant) :
  List.find (hasId who) ps = Some p -> (1 <= entriesOf who ps)%nat.
Proof.
  unfold entriesOf. induction ps as [|q ps IH]; simpl; [discriminate |].
  destruct (hasId who q); simpl; [lia | exact IH].
Qed.

Lemma entries_found (who : string) (ps : list Participant) :
  (1 <= entriesOf who ps)%nat ->
  exists p, List.find (hasId who) ps = Some p.
Proof.
  destruct (List.find (hasId who) ps) as [p|] eqn:E; [eauto |].
  rewrite (find_none_entries who ps E). lia.
Qed.

Lemma entries_push (u : User) (ps : list Participant) (t : Z) :
  entriesOf (uid u) (ps ++ [mkParticipant (uid u) (email u) t])
  = S (entriesOf (uid u) ps).
Proof.
  unfold entriesOf. rewrite List.filter_app, List.length_app. simpl.
  unfold hasId at 2. simpl. rewrite String.eqb_refl. simpl. lia.
Qed.

(** The roster entries of the caller after one [joinRoom]: the document
    exists, and the caller has one entry if there was none, otherwise as
    many as before. *)
Lemma joinRoom_store_entries (u : User) (roomId : string) (clk : Clocks)
    (db : Store) :
  exists d,
    joinRoom_store u roomId clk db !! roomId = Some d
    /\ entriesOf (uid u) (participantsOf d)
       = Nat.max 1 match db !! roomId with
                   | Some d0 => entriesOf (uid u) (participantsOf d0)
                   | None => 0%nat
                   end.
Proof.
  unfold joinRoom_store, updateDoc.
  destruct (db !! roomId) as [d0|] eqn:Hdoc.
  - destruct (List.find (hasId (uid u)) (participantsOf d0)) as [p|] eqn:Hfind.
    + exists d0. split; [exact Hdoc |].
      pose proof (find_some_entries _ _ _ Hfind). lia.
    + eexists. split; [apply lookup_insert_eq |].
      unfold participantsOf at 1. simpl.
      rewrite entries_push, (find_none_entries _ _ Hfind). reflexivity.
  - eexists. split; [apply lookup_insert_eq |].
    unfold participantsOf, entriesOf, hasId. simpl.
    rewrite String.eqb_refl. reflexivity.
Qed.

(** A caller already on the roster: [joinRoom] writes nothing. *)
Lemma joinRoom_store_member (u : User) (roomId : string) (clk : Clocks)
    (db : Store) (d : Room.Doc) :
  db !! roomId = Some d ->
  (1 <= entriesOf (uid u) (participantsOf d))%nat ->
  joinRoom_store u roomId clk db = db.
Proof.
  intros Hdoc Hin. unfold joinRoom_store. rewrite Hdoc.
  destruct (entries_found _ _ Hin) as [p Hp]. rewrite Hp. reflexivity.
Qed.

(** C7: calling [joinRoom] twice in succession for the same room and the
    same authenticated user, on a store whose roster for that room (if the
    room exists) holds at most one entry for the caller (the roster is
    keyed by participant id), leaves the room document with exactly one
    entry for the caller; both calls resolve and the second leaves the
    store as the first left it. *)
Theorem C7_join_twice_one_entry
    (r1 r2 : Render) (u : User) (roomId : string) (clk1 clk2 : Clocks)
    (db : Store) :
  user r1 = Some u ->
  user r2 = Some u ->
  (forall d, db !! roomId = Some d ->
             (entriesOf (uid u) (participantsOf d) <= 1)%nat) ->
  joined_completion (joinRoom r1 roomId clk1 db) = Resolved
  /\ joined_completion
       (joinRoom r2 roomId clk2 (joined_store (joinRoom r1 roomId clk1 db)))
     = Resolved
  /\ joined_store
       (joinRoom r2 roomId clk2 (joined_store (joinRoom r1 roomId clk1 db)))
     = joined_store (joinRoom r1 roomId clk1 db)
  /\ exists d,
       joined_store
         (joinRoom r2 roomId clk2 (joined_store (joinRoom r1 roomId clk1 db)))
       !! roomId = Some d
       /\ entriesOf (uid u) (participantsOf d) = 1%nat.
Proof.
  intros Hu1 Hu2 Hkeyed. unfold joinRoom. rewrite Hu1, Hu2. simpl.
  destruct (joinRoom_store_entries u roomId clk1 db) as (d & Hd & Hn).
  assert (Hone : entriesOf (uid u) (participantsOf d) = 1%nat).
  { rewrite Hn. destruct (db !! roomId) as [d0|] eqn:Hdoc; [| reflexivity].
    specialize (Hkeyed d0 eq_refl). lia. }
  assert (Hsame : joinRoom_store u roomId clk2 (joinRoom_store u roomId clk1 db)
                  = joinRoom_store u roomId clk1 db).
  { apply (joinRoom_store_member u roomId clk2 _ d Hd). lia. }
  rewrite Hsame. split; [reflexivity |]. split; [reflexivity |].
  split; [reflexivity |]. exists d. split; assumption.
Qed.

Lemma C7_join_twice_one_entry_witness :
  exists d,
    joined_store
      (joinRoom aliceInRoom "listening" (mkClocks 30 30 31)
         (joined_store
            (joinRoom aliceAtJoin "listening" (mkClocks 20 20 21) bobsRoom)))
    !! "listening"%string = Some d
    /\ entriesOf "A" (participantsOf d) = 1%nat.
Proof.
  assert (Hkeyed : forall d, bobsRoom !! "listening"%string = Some d ->
                             (entriesOf (uid alice) (participantsOf d) <= 1)%nat).
  { intros d Hd. vm_compute in Hd. injection Hd as <-. vm_compute. lia. }
  destruct (C7_join_twice_one_entry aliceAtJoin aliceInRoom alice "listening"
              (mkClocks 20 20 21) (mkClocks 30 30 31) bobsRoom
              eq_refl eq_refl Hkeyed)
    as (_ & _ & _ & Hentry).
  exact Hentry.
Defined.

Lemma entries_after_leave (who : string) (ps : list Participant) :
  entriesOf who (List.filter (fun p => negb (hasId who p)) ps) = 0%nat.
Proof.
  unfold entriesOf. induction ps as [|p ps IH]; simpl; [reflexivity |].
  destruct (hasId who p) eqn:E; simpl; [exact IH |].
  rewrite E. exact IH.
Qed.

(** C8: [leaveRoom] of a participant of an existing room rewrites the
    [participants] field only.  The document still exists afterwards
    (also when the roster becomes empty), its pivot ([currentTrackId],
    [isPlaying], [lastActionTime], [lastActionSeekPosition],
    [lastActionByUserId]), [id] and [createdAt] are unchanged, the caller
    has no entry left, every other participant is kept, and no other
    document of the store is touched. *)
Theorem C8_leave_removes_only_caller
    (r : Render) (t : Z) (db : Store) (room : string) (u : User)
    (d : Room.Doc) :
  roomAndUser r = Some (room, u) ->
  db !! room = Some d ->
  snd (leaveRoom r t db) = Resolved
  /\ (exists d',
         fst (leaveRoom r t db) !! room = Some d'
         /\ pivotOf d' = pivotOf d
         /\ Room.id d' = Room.id d
         /\ Room.createdAt d' = Room.createdAt d
         /\ Room.participants d'
            = Some (List.filter (fun p => negb (hasId (uid u) p))
                                (participantsOf d))
         /\ entriesOf (uid u) (participantsOf d') = 0%nat
         /\ (forall p, In p (participantsOf d) ->
                       participant_id p <> uid u ->
                       In p (participantsOf d'))
         /\ (forall e j, participantsOf d = [mkParticipant (uid u) e j] ->
                          Room.participants d' = Some []))
  /\ (forall other, other <> room ->
                    fst (leaveRoom r t db) !! other = db !! other).
Proof.
  intros Hin Hdoc. unfold leaveRoom, updateDoc. rewrite Hin, Hdoc. simpl.
  split; [reflexivity |]. split.
  - eexists. split; [apply lookup_insert_eq |].
    split; [reflexivity |]. split; [reflexivity |]. split; [reflexivity |].
    split; [reflexivity |]. unfold participantsOf at 1 3 5. simpl.
    split; [apply entries_after_leave |]. split.
    + intros p Hp Hne. apply List.filter_In. split; [exact Hp |].
      unfold hasId. destruct (String.eqb_spec (participant_id p) (uid u));
        [contradiction | reflexivity].
    + intros e j Honly. rewrite Honly. unfold hasId. simpl.
      rewrite String.eqb_refl. reflexivity.
  - intros other Hne. apply lookup_insert_ne. congruence.
Qed.

Lemma C8_leave_removes_only_caller_witness :
  exists d',
    fst (leaveRoom bobInRoom 40 bobsRoom) !! "listening"%string = Some d'
    /\ pivotOf d' = (Some "x"%string, true, Some 7, Some 12%Q, Some "B"%string)
    /\ entriesOf "B" (participantsOf d') = 0%nat.
Proof.
  destruct (C8_leave_removes_only_caller bobInRoom 40 bobsRoom "listening" bob
              (Room.mkDoc "listening"
                 (Some [mkParticipant "B" (Some "bob@example.org"%string) 5])
                 (Some "x"%string) true (Some 7) (Some 12%Q)
                 (Some "B"%string) 5)
              eq_refl eq_refl)
    as (_ & (d' & Hd' & Hpivot & _ & _ & _ & Hgone & _) & _).
  exists d'. split; [exact Hd' |]. split; [exact Hpivot | exact Hgone].
Defined.

(** ** The store: merge updates *)

(** [updateDoc] never creates or deletes a document: it is refused for a
    missing document, and otherwise keeps the set of room ids, replaces
    the addressed document by the merge and leaves every other document
    alone. *)
Theorem updateDoc_keeps_documents
    (t : Z) (room : string) (f : Fields) (db : Store) :
  (db !! room = None -> updateDoc t room f db = None)
  /\ (forall db', updateDoc t room f db = Some db' ->
        dom db' = dom db
        /\ (exists d, db !! room = Some d
                      /\ db' !! room = Some (applyFields t f d))
        /\ forall other, other <> room -> db' !! other = db !! other).
Proof.
  unfold updateDoc. split.
  - intros Hnone. rewrite Hnone. reflexivity.
  - intros db' Hupd. destruct (db !! room) as [d|] eqn:Hdoc; [| discriminate].
    injection Hupd as <-. split; [| split].
    + apply dom_insert_lookup_L. eauto.
    + exists d. split; [reflexivity | apply lookup_insert_eq].
    + intros other Hne. apply lookup_insert_ne. congruence.
Qed.

Lemma updateDoc_keeps_documents_witness :
  exists db',
    updateDoc 9 "listening" (trackFact alice songY) bobsRoom = Some db'
    /\ dom db' = dom bobsRoom.
Proof.
  destruct (updateDoc_keeps_documents 9 "listening" (trackFact alice songY)
              bobsRoom) as [_ Hsome].
  eexists. split; [reflexivity |].
  apply (Hsome _ eq_refl).
Defined.

Lemma guardedUpdate_In room f ok msg room' f' :
  In (UpdateDoc room' f') (guardedUpdate room f ok msg) ->
  room' = room /\ f' = f.
Proof.
  unfold guardedUpdate. intros [H | H].
  - injection H as <- <-. split; reflexivity.
  - destruct ok; simpl in H; [contradiction |].
    destruct H as [H | H]; [discriminate | contradiction].
Qed.

(** Whatever the three publishers write, merged into a document at store
    time [t]: the roster, [id] and [createdAt] are untouched, the action
    time becomes [t] and the writer is recorded; a seek write moreover
    leaves the track and the playing flag as they were. *)
Theorem publishers_write_pivot_only
    (t : Z) (d : Room.Doc) (r : Render) (ok : bool) (playing : bool)
    (position : Q) (song : Song) (task : SeekTask) (room : string)
    (f : Fields) :
  (In (UpdateDoc room f)
      (fst (updatePlayPauseState r ok playing position)
       ++ fst (updateTrack r ok song) ++ seekCallback ok task) ->
   Room.participants (applyFields t f d) = Room.participants d
   /\ Room.id (applyFields t f d) = Room.id d
   /\ Room.createdAt (applyFields t f d) = Room.createdAt d
   /\ Room.lastActionTime (applyFields t f d) = Some t
   /\ Room.lastActionByUserId (applyFields t f d) <> None)
  /\ (In (UpdateDoc room f) (seekCallback ok task) ->
      Room.currentTrackId (applyFields t f d) = Room.currentTrackId d
      /\ Room.isPlaying (applyFields t f d) = Room.isPlaying d
      /\ Room.lastActionSeekPosition (applyFields t f d)
         = Some (task_position task)).
Proof.
  split.
  - intros Hin. apply List.in_app_or in Hin. destruct Hin as [Hin | Hin].
    + unfold updatePlayPauseState in Hin.
      destruct (roomAndUser r) as [[room0 u]|]; [| contradiction].
      apply guardedUpdate_In in Hin. destruct Hin as [_ ->].
      repeat split; discriminate.
    + apply List.in_app_or in Hin. destruct Hin as [Hin | Hin].
      * unfold updateTrack in Hin.
        destruct (roomAndUser r) as [[room0 u]|]; [| contradiction].
        apply guardedUpdate_In in Hin. destruct Hin as [_ ->].
        repeat split; discriminate.
      * apply guardedUpdate_In in Hin. destruct Hin as [_ ->].
        repeat split; discriminate.
  - intros Hin. apply guardedUpdate_In in Hin. destruct Hin as [_ ->].
    repeat split.
Qed.

Lemma publishers_write_pivot_only_witness :
  Room.participants
    (applyFields 9 (mkFields None None (Some false) true (Some 12%Q)
                             (Some "A"%string))
       (Room.mkDoc "listening" (Some [mkParticipant "B" None 5])
                   (Some "x"%string) true (Some 7) (Some 3%Q)
                   (Some "B"%string) 5))
  = Some [mkParticipant "B" None 5].
Proof.
  destruct (publishers_write_pivot_only 9
              (Room.mkDoc "listening" (Some [mkParticipant "B" None 5])
                          (Some "x"%string) true (Some 7) (Some 3%Q)
                          (Some "B"%string) 5)
              aliceInRoom true false 12 songX
              (mkSeekTask "listening" alice 1) "listening"
              (mkFields None None (Some false) true (Some 12%Q)
                        (Some "A"%string))) as [Hany _].
  apply Hany. left. reflexivity.
Defined.

(** ** From one client's publish to another client's reaction *)

(** Round trip of a play/pause publish.  Client [a] publishes
    [(playing, position)] from a room; the store merges it at time [t].
    Any other user's listener reading the merged document at [now], with a
    sound set, leaves a status request for position
    [position + (now - t) / 1000] and flag [playing], and sees the same
    track change as before the publish. *)
Theorem playPause_publish_reaches_others
    (ra : Render) (a : User) (room : string) (ok playing : bool)
    (position : Q) (t : Z) (d : Room.Doc)
    (rb : Render) (b : User) (h : Handle) (now : Z) :
  roomAndUser ra = Some (room, a) ->
  uid b <> uid a ->
  exists f,
    List.filter is_write (fst (updatePlayPauseState ra ok playing position))
    = [UpdateDoc room f]
    /\ onSnapshot rb b (Some h) now (Some (applyFields t f d))
       = mkSync (trackChange rb d)
                (Some (mkPending h (position + inject_Z (now - t) / 1000)%Q
                                 playing)).
Proof.
  intros Hroom Hne. unfold updatePlayPauseState. rewrite Hroom. cbn [fst].
  eexists. split; [apply guardedUpdate_writes |].
  rewrite onSnapshot_foreign.
  - reflexivity.
  - simpl. intros E. injection E as E. apply Hne. symmetry. exact E.
Qed.

Lemma playPause_publish_reaches_others_witness :
  exists f,
    List.filter is_write (fst (updatePlayPauseState aliceInRoom true true 12))
    = [UpdateDoc "listening" f]
    /\ statusRequest
         (onSnapshot bobInRoom bob (Some 1%nat) 9000
            (Some (applyFields 7000 f (bobsAction false 0 3))))
       = Some (mkPending 1%nat (12 + inject_Z (9000 - 7000) / 1000)%Q true).
Proof.
  assert (Hne : uid bob <> uid alice) by discriminate.
  destruct (playPause_publish_reaches_others aliceInRoom alice "listening"
              true true 12 7000 (bobsAction false 0 3) bobInRoom bob 1%nat
              9000 eq_refl Hne) as (f & Hw & Hsync).
  exists f. split; [exact Hw |]. exact (f_equal statusRequest Hsync).
Defined.

(** No client reacts to its own publish: whatever one of the three
    publishers writes for user [u], merged into any document, the
    listener of user [u] answers the resulting notification with no effect
    at all. *)
Theorem own_publish_is_ignored
    (r : Render) (u : User) (room : string) (ok playing : bool)
    (position : Q) (song : Song) (seekPosition : Q)
    (t : Z) (d : Room.Doc) (f : Fields)
    (r' : Render) (env : PlayEnv) (sched : Schedule)
    (soundRef : option Handle) (now : Z) (st : option Status) :
  roomAndUser r = Some (room, u) ->
  In (UpdateDoc room f)
     (fst (updatePlayPauseState r ok playing position)
      ++ fst (updateTrack r ok song)
      ++ seekCallback ok (mkSeekTask room u seekPosition)) ->
  reconcile r' u env sched soundRef now (Some (applyFields t f d)) st = [].
Proof.
  intros Hroom Hin.
  assert (Hby : Room.lastActionByUserId (applyFields t f d) = Some (uid u)).
  { apply List.in_app_or in Hin. destruct Hin as [Hin | Hin].
    - unfold updatePlayPauseState in Hin. rewrite Hroom in Hin.
      apply guardedUpdate_In in Hin. destruct Hin as [_ ->]. reflexivity.
    - apply List.in_app_or in Hin. destruct Hin as [Hin | Hin].
      + unfold updateTrack in Hin. rewrite Hroom in Hin.
        apply guardedUpdate_In in Hin. destruct Hin as [_ ->]. reflexivity.
      + apply guardedUpdate_In in Hin. destruct Hin as [_ ->]. reflexivity. }
  unfold reconcile.
  rewrite (onSnapshot_echo r' u soundRef now _ Hby). reflexivity.
Qed.

Lemma own_publish_is_ignored_witness :
  reconcile aliceInRoom alice fineEnv LoadFirst (Some 1%nat) 9000
    (Some (applyFields 7000 (trackFact alice songY) (bobsAction true 0 3)))
    (Some (loadedAt 0)) = [].
Proof.
  apply (own_publish_is_ignored aliceInRoom alice "listening" true true 12
           songY 30 7000 (bobsAction true 0 3) (trackFact alice songY)
           aliceInRoom fineEnv LoadFirst (Some 1%nat) 9000
           (Some (loadedAt 0)) eq_refl).
  right. left. reflexivity.
Defined.

(** Round trip of a track publish.  Client [a] publishes [song] from a
    room and the store merges the write at time [t].  The listener of
    another user whose render has a different current track and holds a
    song with that id in its queue starts [playSong] on its own queue
    entry and requests the status for position [(now - t) / 1000],
    playing.  A listener whose render already has that track current
    starts nothing. *)
Theorem track_publish_reaches_others
    (ra : Render) (a : User) (room : string) (ok : bool) (song : Song)
    (t : Z) (d : Room.Doc)
    (rb : Render) (b : User) (h : Handle) (now : Z) :
  roomAndUser ra = Some (room, a) ->
  uid b <> uid a ->
  song_id song <> EmptyString ->
  exists f,
    List.filter is_write (fst (updateTrack ra ok song)) = [UpdateDoc room f]
    /\ (forall mine,
           option_map song_id (currentSong (state rb)) <> Some (song_id song) ->
           List.find (fun s => String.eqb (song_id s) (song_id song))
                     (queue (state rb)) = Some mine ->
           song_id mine = song_id song
           /\ onSnapshot rb b (Some h) now (Some (applyFields t f d))
              = mkSync (Some mine)
                  (Some (mkPending h (0 + inject_Z (now - t) / 1000)%Q true)))
    /\ (option_map song_id (currentSong (state rb)) = Some (song_id song) ->
        startedSong (onSnapshot rb b (Some h) now (Some (applyFields t f d)))
        = None).
Proof.
  intros Hroom Hne Hid. unfold updateTrack. rewrite Hroom. cbn [fst].
  eexists. split; [apply guardedUpdate_writes |].
  assert (Hother : Room.lastActionByUserId
                     (applyFields t (mkFields None (Some (song_id song))
                        (Some true) true (Some 0%Q) (Some (uid a))) d)
                   <> Some (uid b)).
  { simpl. intros E. injection E as E. apply Hne. symmetry. exact E. }
  split.
  - intros mine Hdiff Hfind.
    split; [apply (find_resolved_id _ _ _ Hfind) |].
    rewrite (onSnapshot_foreign rb b (Some h) now _ Hother).
    rewrite (trackChange_resolves rb
               (applyFields t (mkFields None (Some (song_id song))
                  (Some true) true (Some 0%Q) (Some (uid a))) d)
               (song_id song) mine eq_refl Hid Hdiff Hfind).
    reflexivity.
  - intros Hsame.
    rewrite (onSnapshot_foreign rb b (Some h) now _ Hother).
    unfold trackChange. simpl.
    replace (sameId (option_map song_id (currentSong (state rb)))
                    (song_id song)) with true
      by (symmetry; apply sameId_true; exact Hsame).
    rewrite andb_false_r. reflexivity.
Qed.

Lemma track_publish_reaches_others_witness :
  exists f,
    List.filter is_write (fst (updateTrack aliceInRoom true songY))
    = [UpdateDoc "listening" f]
    /\ onSnapshot bobInRoom bob (Some 1%nat) 9000
         (Some (applyFields 7000 f (bobsAction true 0 3)))
       = mkSync (Some songY)
           (Some (mkPending 1%nat (0 + inject_Z (9000 - 7000) / 1000)%Q true)).
Proof.
  assert (Hne : uid bob <> uid alice) by discriminate.
  assert (Hid : song_id songY <> EmptyString) by discriminate.
  destruct (track_publish_reaches_others aliceInRoom alice "listening" true
              songY 7000 (bobsAction true 0 3) bobInRoom bob 1%nat 9000
              eq_refl Hne Hid) as (f & Hw & Hdiff & _).
  exists f. split; [exact Hw |].
  assert (Hcur : option_map song_id (currentSong (state bobInRoom))
                 <> Some (song_id songY)) by discriminate.
  exact (proj2 (Hdiff songY Hcur eq_refl)).
Defined.

Lemma trackChange_unresolved (r : Render) (data : Room.Doc) (tid : string) :
  Room.currentTrackId data = Some tid ->
  List.find (fun s => String.eqb (song_id s) tid) (queue (state r)) = None ->
  trackChange r data = None.
Proof.
  intros Htid Hfind. unfold trackChange. rewrite Htid.
  destruct (truthy (Some tid)
            && negb (sameId (option_map song_id (currentSong (state r))) tid));
    [exact Hfind | reflexivity].
Qed.

(** A track the queue does not hold is not loaded, but the notification is
    not dropped: with the pivot present, the sound that is loaded (of
    another track) gets the status request, and once it reports loaded it
    is sought to the remote position. *)
Theorem unresolved_track_still_seeks
    (r : Render) (u : User) (env : PlayEnv) (sched : Schedule) (h : Handle)
    (now : Z) (data : Room.Doc) (st : option Status) (tid : string)
    (t : Z) (p : Q) :
  Room.lastActionByUserId data <> Some (uid u) ->
  Room.currentTrackId data = Some tid ->
  List.find (fun s => String.eqb (song_id s) tid) (queue (state r)) = None ->
  Room.lastActionTime data = Some t ->
  Room.lastActionSeekPosition data = Some p ->
  reconcile r u env sched (Some h) now (Some data) st
  = GetStatusAsync h
    :: onStatus r (Some h) st
         (mkPending h (calculatedPosition now t p) (Room.isPlaying data))
  /\ (forall status, st = Some status -> isLoaded status = true ->
        List.filter is_seek (reconcile r u env sched (Some h) now (Some data) st)
        = [SetPositionAsync h (calculatedPosition now t p * 1000)%Q]).
Proof.
  intros Hother Htid Hfind Ht Hp.
  assert (E : reconcile r u env sched (Some h) now (Some data) st
              = GetStatusAsync h
                :: onStatus r (Some h) st
                     (mkPending h (calculatedPosition now t p)
                                (Room.isPlaying data))).
  { unfold reconcile.
    rewrite (onSnapshot_foreign r u (Some h) now data Hother). cbn [startedSong statusRequest].
    rewrite (trackChange_unresolved r data tid Htid Hfind).
    rewrite (pivotRequest_present h now data t p Ht Hp).
    cbn [beforeAwait afterAwait soundRefAfter pendingHandle].
    destruct sched; simpl; [rewrite List.app_nil_r |]; reflexivity. }
  split; [exact E |].
  intros status -> Hl. rewrite E.
  rewrite filter_skip by reflexivity.
  exact (onStatus_seeks r h status
           (mkPending h (calculatedPosition now t p) (Room.isPlaying data)) Hl).
Qed.

Lemma unresolved_track_still_seeks_witness :
  List.filter is_seek
    (reconcile aliceInRoom alice fineEnv StatusFirst (Some 1%nat) 5000
       (Some (Room.mkDoc "listening" (Some []) (Some "z"%string) true
                         (Some 0) (Some 30%Q) (Some "B"%string) 0))
       (Some (loadedAt 10000)))
  = [SetPositionAsync 1%nat (calculatedPosition 5000 0 30 * 1000)%Q].
Proof.
  assert (Hother : Room.lastActionByUserId
                     (Room.mkDoc "listening" (Some []) (Some "z"%string) true
                        (Some 0) (Some 30%Q) (Some "B"%string) 0)
                   <> Some (uid alice)) by discriminate.
  destruct (unresolved_track_still_seeks aliceInRoom alice fineEnv StatusFirst
              1%nat 5000
              (Room.mkDoc "listening" (Some []) (Some "z"%string) true
                          (Some 0) (Some 30%Q) (Some "B"%string) 0)
              (Some (loadedAt 10000)) "z" 0 30 Hother eq_refl eq_refl
              eq_refl eq_refl) as [_ Hseek].
  exact (Hseek (loadedAt 10000) eq_refl eq_refl).
Defined.

(** A notification from another user with no track change due, the pivot
    present and a sound set: the whole reaction is the status request and
    its continuation. *)
Lemma reconcile_same_track r u env sched h now data st t p :
  Room.lastActionByUserId data <> Some (uid u) ->
  trackChange r data = None ->
  Room.lastActionTime data = Some t ->
  Room.lastActionSeekPosition data = Some p ->
  reconcile r u env sched (Some h) now (Some data) st
  = GetStatusAsync h
    :: onStatus r (Some h) st
         (mkPending h (calculatedPosition now t p) (Room.isPlaying data)).
Proof.
  intros Hother Htrack Ht Hp. unfold reconcile.
  rewrite (onSnapshot_foreign r u (Some h) now data Hother).
  cbn [startedSong statusRequest]. rewrite Htrack.
  rewrite (pivotRequest_present h now data t p Ht Hp).
  cbn [beforeAwait afterAwait soundRefAfter pendingHandle].
  destruct sched; simpl; [rewrite List.app_nil_r |]; reflexivity.
Qed.

(** When the listener has nothing to act on it issues nothing: the
    document does not exist; or no track change is due and the pivot lacks
    its time ([null] or missing) or its position (missing), or no sound is
    set.  A [null] position is not such a case: it passes the test against
    [undefined] and counts as 0, so a loaded sound is sought to the time
    elapsed since the pivot. *)
Theorem reconcile_without_pivot_is_silent
    (r : Render) (u : User) (env : PlayEnv) (sched : Schedule)
    (soundRef : option Handle) (now : Z) (st : option Status) :
  reconcile r u env sched soundRef now None st = []
  /\ (forall data,
        trackChange r data = None ->
        Room.lastActionTime data = None
        \/ Room.lastActionSeekPosition data = readPosition PositionMissing
        \/ soundRef = None ->
        reconcile r u env sched soundRef now (Some data) st = [])
  /\ (forall data h t status,
        soundRef = Some h ->
        Room.lastActionByUserId data <> Some (uid u) ->
        trackChange r data = None ->
        Room.lastActionTime data = Some t ->
        Room.lastActionSeekPosition data = readPosition PositionNull ->
        st = Some status ->
        isLoaded status = true ->
        List.filter is_seek
          (reconcile r u env sched soundRef now (Some data) st)
        = [SetPositionAsync h ((0 + inject_Z (now - t) / 1000) * 1000)%Q]).
Proof.
  split; [reflexivity |]. split.
  - intros data Htrack Hmiss. unfold reconcile, onSnapshot.
    destruct (sameId (Room.lastActionByUserId data) (uid u)); [reflexivity |].
    cbn [startedSong statusRequest]. rewrite Htrack.
    assert (Hreq : pivotRequest soundRef now data = None).
    { unfold pivotRequest. destruct Hmiss as [H | [H | H]]; rewrite H.
      - reflexivity.
      - destruct (Room.lastActionTime data); reflexivity.
      - destruct (Room.lastActionTime data),
          (Room.lastActionSeekPosition data); reflexivity. }
    rewrite Hreq. reflexivity.
  - intros data h t status -> Hother Htrack Ht Hp -> Hl.
    rewrite (reconcile_same_track r u env sched h now data (Some status) t 0
               Hother Htrack Ht Hp).
    rewrite filter_skip by reflexivity.
    exact (onStatus_seeks r h status
             (mkPending h (calculatedPosition now t 0) (Room.isPlaying data))
             Hl).
Qed.

Lemma reconcile_without_pivot_is_silent_witness :
  reconcile aliceInRoom alice fineEnv StatusFirst (Some 1%nat) 5000
    (Some (Room.mkDoc "listening" (Some []) (Some "x"%string) false
                      (Some 0) (readPosition PositionMissing)
                      (Some "B"%string) 0))
    (Some (loadedAt 0)) = []
  /\ List.filter is_seek
       (reconcile aliceInRoom alice fineEnv StatusFirst (Some 1%nat) 5000
          (Some (Room.mkDoc "listening" (Some []) (Some "x"%string) false
                            (Some 0) (readPosition PositionNull)
                            (Some "B"%string) 0))
          (Some (loadedAt 0)))
     = [SetPositionAsync 1%nat ((0 + inject_Z (5000 - 0) / 1000) * 1000)%Q].
Proof.
  destruct (reconcile_without_pivot_is_silent aliceInRoom alice fineEnv
              StatusFirst (Some 1%nat) 5000 (Some (loadedAt 0)))
    as (_ & Hsilent & Hnull).
  split.
  - apply Hsilent; [reflexivity | right; left; reflexivity].
  - assert (Hother : Room.lastActionByUserId
                       (Room.mkDoc "listening" (Some []) (Some "x"%string)
                          false (Some 0) (readPosition PositionNull)
                          (Some "B"%string) 0)
                     <> Some (uid alice)) by discriminate.
    exact (Hnull _ 1%nat 0 (loadedAt 0) eq_refl Hother eq_refl eq_refl
             eq_refl eq_refl eq_refl).
Defined.

(** The status continuation of a loaded sound sets the position of the
    live state to the calculated one.  Play and pause are decided on the
    flag of the listener's render, not on the live flag: when the remote
    flag differs from the render's, exactly one command is issued and the
    live flag becomes the remote one; when they agree no command is
    issued and the live flag is left as it is.  So the live flag ends as
    the remote one whenever it agreed with the render's flag before. *)
Theorem onStatus_follows_remote
    (r : Render) (h : Handle) (status : Status) (pd : Pending)
    (live : MusicState) :
  isLoaded status = true ->
  currentTime (applyEffects (onStatus r (Some h) (Some status) pd) live)
  = pendingPosition pd
  /\ List.filter is_playPause (onStatus r (Some h) (Some status) pd)
     = (if Bool.eqb (pendingIsPlaying pd) (isPlaying (state r)) then []
        else if pendingIsPlaying pd then [PlayAsync h] else [PauseAsync h])
  /\ isPlaying (applyEffects (onStatus r (Some h) (Some status) pd) live)
     = (if Bool.eqb (pendingIsPlaying pd) (isPlaying (state r))
        then isPlaying live else pendingIsPlaying pd)
  /\ (isPlaying live = isPlaying (state r) ->
      isPlaying (applyEffects (onStatus r (Some h) (Some status) pd) live)
      = pendingIsPlaying pd).
Proof.
  intros Hl. unfold onStatus. rewrite Hl.
  destruct (pendingIsPlaying pd) eqn:Ep, (isPlaying (state r)) eqn:Es;
    simpl; repeat split; try reflexivity; intros ->; reflexivity.
Qed.

(** The render says playing, the live state says paused after a local
    pause; a remote "playing" commands nothing and leaves it paused, a
    remote "paused" issues one pause. *)
Lemma onStatus_follows_remote_witness :
  isPlaying
    (applyEffects
       (onStatus aliceInRoom (Some 1%nat) (Some (loadedAt 0))
          (mkPending 1%nat 12 true))
       (applyUpdate (SetIsPlaying false) playingX)) = false
  /\ List.filter is_playPause
       (onStatus aliceInRoom (Some 1%nat) (Some (loadedAt 0))
          (mkPending 1%nat 12 false))
     = [PauseAsync 1%nat].
Proof.
  split.
  - destruct (onStatus_follows_remote aliceInRoom 1%nat (loadedAt 0)
                (mkPending 1%nat 12 true)
                (applyUpdate (SetIsPlaying false) playingX) eq_refl)
      as (_ & _ & Hflag & _).
    exact Hflag.
  - destruct (onStatus_follows_remote aliceInRoom 1%nat (loadedAt 0)
                (mkPending 1%nat 12 false) playingX eq_refl)
      as (_ & Hcmd & _).
    exact Hcmd.
Defined.

(** ** Local play, pause and seek *)

Lemma positionSeconds_spec (status : Status) :
  (positionSeconds status == positionMillis status / 1000)%Q.
Proof.
  unfold positionSeconds.
  destruct (Qeq_bool (positionMillis status) 0) eqn:E; [| reflexivity].
  apply Qeq_bool_iff in E. rewrite E. reflexivity.
Qed.

(** [pauseSong] and [resumeSong] never both act: for every sound, status
    and outcome of the awaited calls, one of the two issues no play or
    pause command, no write and no state update.  Without a sound neither
    issues anything at all. *)
Theorem pause_resume_exclusive
    (r : Render) (env : ActionEnv) (soundRef : option Handle) :
  (List.filter is_action (pauseSong r env soundRef) = []
   \/ List.filter is_action (resumeSong r env soundRef) = [])
  /\ (soundRef = None ->
      pauseSong r env soundRef = [] /\ resumeSong r env soundRef = []).
Proof.
  split.
  - destruct soundRef as [h|]; [| left; reflexivity].
    unfold pauseSong, resumeSong.
    destruct (statusNow env) as [status|]; [| left; reflexivity].
    destruct (isLoaded status), (status_isPlaying status); simpl;
      try (left; reflexivity); right; reflexivity.
  - intros ->. split; reflexivity.
Qed.

Lemma pause_resume_exclusive_witness :
  pauseSong aliceInRoom (mkActionEnv (Some (loadedAt 0)) true true) None
  = [].
Proof.
  apply (pause_resume_exclusive aliceInRoom
           (mkActionEnv (Some (loadedAt 0)) true true) None).
  reflexivity.
Defined.

(** A pause that goes through, in a room: the sound gets one pause
    command and exactly one write is issued, saying not playing at the
    position the sound reported, [positionMillis / 1000].  A pause command
    that is rejected changes no state and publishes nothing. *)
Theorem pause_publishes_reported_position
    (r : Render) (env : ActionEnv) (h : Handle) (status : Status)
    (room : string) (u : User) :
  roomAndUser r = Some (room, u) ->
  statusNow env = Some status ->
  isLoaded status = true ->
  status_isPlaying status = true ->
  (commandOk env = true ->
   List.filter is_playPause (pauseSong r env (Some h)) = [PauseAsync h]
   /\ List.filter is_write (pauseSong r env (Some h))
      = [UpdateDoc room
           (mkFields None None (Some false) true
                     (Some (positionSeconds status)) (Some (uid u)))]
   /\ (positionSeconds status == positionMillis status / 1000)%Q)
  /\ (commandOk env = false ->
      List.filter is_write (pauseSong r env (Some h)) = []
      /\ List.filter is_state_change (pauseSong r env (Some h)) = []).
Proof.
  intros Hroom Hst Hl Hp. unfold pauseSong. rewrite Hst, Hl, Hp. simpl.
  split.
  - intros Hc. rewrite Hc. unfold withWidget, updatePlayPauseState.
    rewrite Hroom. cbn [fst].
    split; [| split; [| apply positionSeconds_spec]].
    + destruct (currentSong (state r)); unfold guardedUpdate;
        destruct (storeFine env); reflexivity.
    + destruct (currentSong (state r)); simpl; apply guardedUpdate_writes.
  - intros Hc. rewrite Hc. split; reflexivity.
Qed.

Lemma pause_publishes_reported_position_witness :
  List.filter is_write
    (pauseSong aliceInRoom (mkActionEnv (Some (loadedAt 12500)) true true)
       (Some 1%nat))
  = [UpdateDoc "listening"
       (mkFields None None (Some false) true
                 (Some (positionSeconds (loadedAt 12500))) (Some "A"%string))]
  /\ (positionSeconds (loadedAt 12500) == 12500 / 1000)%Q.
Proof.
  destruct (pause_publishes_reported_position aliceInRoom
              (mkActionEnv (Some (loadedAt 12500)) true true) 1%nat
              (loadedAt 12500) "listening" alice eq_refl eq_refl eq_refl
              eq_refl) as [Hok _].
  destruct (Hok eq_refl) as (_ & Hw & Hpos).
  split; [exact Hw | exact Hpos].
Defined.

(** [seekTo] moves the local sound at once and defers the publish.
    Without a sound it does nothing, not even arm the publisher.  With a
    sound, in a room, from any state the seek publisher can be in: the
    sound is sought to [time * 1000] at once and [seekTo] itself writes
    nothing; with [settled] the instant at which the awaited seek command
    and widget update have settled, nothing more is written before
    [settled + 500], and from [settled + 500] on exactly one more write
    has been issued, carrying [time].  If the seek command is rejected no
    state is updated and no timer is armed. *)
Theorem seekTo_is_local_first
    (r : Render) (env : ActionEnv) (settled : Z) (time : Q) (c : Publisher) :
  seekTo r env None settled time c = ([], c)
  /\ (forall h, commandOk env = false ->
        snd (seekTo r env (Some h) settled time c)
        = advance (storeFine env) settled c
        /\ List.filter is_state_change
             (fst (seekTo r env (Some h) settled time c)) = [])
  /\ (forall h room u T,
        Tidy c ->
        roomAndUser r = Some (room, u) ->
        commandOk env = true ->
        List.filter is_seek (fst (seekTo r env (Some h) settled time c))
        = [SetPositionAsync h (time * 1000)%Q]
        /\ List.filter is_write (fst (seekTo r env (Some h) settled time c))
           = []
        /\ (T < settled + 500 ->
            issued (advance (storeFine env) T
                      (snd (seekTo r env (Some h) settled time c)))
            = issued (advance (storeFine env) settled c))
        /\ (settled + 500 <= T ->
            List.filter is_write
              (issued (advance (storeFine env) T
                         (snd (seekTo r env (Some h) settled time c))))
            = List.filter is_write
                (issued (advance (storeFine env) settled c))
              ++ [UpdateDoc room
                    (mkFields None None None true (Some time)
                              (Some (uid u)))])).
Proof.
  split; [reflexivity |]. split.
  - intros h Hc. unfold seekTo. rewrite Hc. split; reflexivity.
  - intros h room u T Htidy Hroom Hc.
    assert (Htask : taskOf (mkSeekCall settled r time)
                    = Some (mkSeekTask room u time)).
    { unfold taskOf. simpl. rewrite Hroom. reflexivity. }
    destruct (advance_Tidy (storeFine env) settled c Htidy) as [Hadv _].
    pose proof (updateSeekPosition_Tidy_arms _ (mkSeekCall settled r time)
                  (mkSeekTask room u time) Hadv Htask) as Harm.
    cbn [call_render call_time call_position] in Harm.
    assert (Hsnd : snd (seekTo r env (Some h) settled time c)
                   = armedFor (nextTimer (advance (storeFine env) settled c))
                       (mkSeekCall settled r time) (mkSeekTask room u time)
                       (S (nextTimer (advance (storeFine env) settled c)))
                       (issued (advance (storeFine env) settled c))).
    { unfold seekTo. rewrite Hc. exact Harm. }
    split; [| split; [| split]].
    + unfold seekTo, withWidget. rewrite Hc.
      destruct (currentSong (state r)); reflexivity.
    + unfold seekTo, withWidget. rewrite Hc.
      destruct (currentSong (state r)); reflexivity.
    + intros Hlt. rewrite Hsnd.
      rewrite advance_not_due by (simpl; lia). reflexivity.
    + intros Hge. rewrite Hsnd.
      rewrite advance_due by (simpl; lia). cbn [issued].
      rewrite List.filter_app. unfold seekCallback.
      rewrite guardedUpdate_writes. reflexivity.
Qed.

(** A client whose ref still holds the handle of a timer that fired. *)
Lemma seekTo_is_local_first_witness :
  List.filter is_write
    (issued (advance true 1530
               (snd (seekTo aliceInRoom
                       (mkActionEnv (Some (loadedAt 0)) true true)
                       (Some 1%nat) 1030 42
                       (mkPublisher (Some 3%nat) [] 4 [])))))
  = [UpdateDoc "listening"
       (mkFields None None None true (Some 42%Q) (Some "A"%string))].
Proof.
  assert (Htidy : Tidy (mkPublisher (Some 3%nat) [] 4 [])).
  { left. reflexivity. }
  destruct (seekTo_is_local_first aliceInRoom
              (mkActionEnv (Some (loadedAt 0)) true true) 1030 42
              (mkPublisher (Some 3%nat) [] 4 [])) as (_ & _ & Hroom).
  destruct (Hroom 1%nat "listening"%string alice 1530 Htidy eq_refl eq_refl)
    as (_ & _ & _ & Hdue).
  apply Hdue. lia.
Defined.

(** ** Queue navigation *)

Lemma findIndexFrom_nth (q : list Song) :
  forall (i : Z) (n : nat) (a : Song),
    NoDup (List.map song_id q) ->
    nth_error q n = Some a ->
    findIndexFrom i (song_id a) q = i + Z.of_nat n.
Proof.
  induction q as [|s rest IH]; intros i n a Hnd Hn.
  - destruct n; discriminate.
  - simpl in Hnd. apply NoDup_cons in Hnd. destruct Hnd as [Hfresh Hnd].
    destruct n as [|n]; simpl in Hn.
    + injection Hn as ->. simpl. rewrite String.eqb_refl. lia.
    + simpl. destruct (String.eqb_spec (song_id s) (song_id a)) as [E | _].
      * exfalso. apply Hfresh. rewrite E.
        apply list_elem_of_In, List.in_map, (nth_error_In _ _ Hn).
      * rewrite (IH (i + 1) n a Hnd Hn). lia.
Qed.

Lemma at_index_nat (q : list Song) (n : nat) :
  at_index q (Z.of_nat n) = nth_error q n.
Proof.
  unfold at_index. destruct (Z.ltb_spec (Z.of_nat n) 0); [lia |].
  rewrite Nat2Z.id. reflexivity.
Qed.

Lemma at_index_In (q : list Song) (i : Z) (s : Song) :
  at_index q i = Some s -> In s q.
Proof.
  unfold at_index. destruct (Z.ltb i 0); [discriminate |].
  apply nth_error_In.
Qed.

Lemma nth_error_bound {A} (l : list A) (n : nat) (a : A) :
  nth_error l n = Some a -> (n < length l)%nat.
Proof. intros H. apply nth_error_Some. rewrite H. discriminate. Qed.

(** Next then previous comes back.  With shuffle off, repeat mode not
    "one", distinct ids in the queue, the current song at position [n] and
    a song [b] at position [n + 1]: [skipNext] plays [b], and once [b] is
    current [skipPrevious] plays the song left. *)
Theorem skipNext_then_skipPrevious
    (p : Player) (n : nat) (a b : Song) :
  isShuffleEnabled p = false ->
  repeatMode p <> RepeatOne ->
  NoDup (List.map song_id (queue (state (player_render p)))) ->
  currentSong (state (player_render p)) = Some a ->
  nth_error (queue (state (player_render p))) n = Some a ->
  nth_error (queue (state (player_render p))) (S n) = Some b ->
  toPlay (skipNextPlan p) = Some b
  /\ toPlay (skipPreviousPlan (nowPlaying p b)) = Some a.
Proof.
  intros Hshuffle Hmode Hnd Hcur Ha Hb.
  pose proof (nth_error_bound _ _ _ Hb) as Hlen.
  split.
  - unfold skipNextPlan, currentIndex, queueLength, queueToUse.
    rewrite Hshuffle, Hcur, (findIndexFrom_nth _ 0 n a Hnd Ha).
    destruct (Z.ltb_spec (0 + Z.of_nat n)
                (Z.of_nat (length (queue (state (player_render p)))) - 1));
      [| lia].
    replace (0 + Z.of_nat n + 1) with (Z.of_nat (S n)) by lia.
    rewrite at_index_nat, Hb. destruct (repeatMode p); try reflexivity.
    contradiction.
  - unfold skipPreviousPlan, currentIndex, queueLength, queueToUse, nowPlaying.
    cbn [isShuffleEnabled repeatMode player_render state applyUpdate
         currentSong queue].
    rewrite Hshuffle, (findIndexFrom_nth _ 0 (S n) b Hnd Hb).
    destruct (Z.ltb_spec 0 (0 + Z.of_nat (S n))); [| lia].
    replace (0 + Z.of_nat (S n) - 1) with (Z.of_nat n) by lia.
    rewrite at_index_nat, Ha. destruct (repeatMode p); try reflexivity.
    contradiction.
Qed.

(** A player on the queue [x; y], shuffle off, repeat off, [x] current. *)
Lemma skipNext_then_skipPrevious_witness :
  toPlay (skipNextPlan (mkPlayer aliceInRoom false RepeatOff [])) = Some songY
  /\ toPlay (skipPreviousPlan
               (nowPlaying (mkPlayer aliceInRoom false RepeatOff []) songY))
     = Some songX.
Proof.
  assert (Hmode : repeatMode (mkPlayer aliceInRoom false RepeatOff [])
                  <> RepeatOne) by discriminate.
  assert (Hnd : NoDup (List.map song_id
                         (queue (state (player_render
                            (mkPlayer aliceInRoom false RepeatOff [])))))).
  { simpl. apply NoDup_cons.
    split; [rewrite list_elem_of_singleton; discriminate |
            apply NoDup_singleton]. }
  apply (skipNext_then_skipPrevious (mkPlayer aliceInRoom false RepeatOff [])
           0%nat songX songY eq_refl Hmode Hnd eq_refl eq_refl eq_refl).
Defined.

Lemma findIndexFrom_absent (q : list Song) (id : string) :
  forall i,
    (forall s, In s q -> song_id s <> id) ->
    findIndexFrom i id q = -1.
Proof.
  induction q as [|s rest IH]; intros i Habs; [reflexivity |].
  simpl. destruct (String.eqb_spec (song_id s) id) as [E | _].
  - exfalso. apply (Habs s); [left; reflexivity | exact E].
  - apply IH. intros s' Hs'. apply Habs. right. exact Hs'.
Qed.

(** The ends of the queue in use (distinct ids).  On the last song,
    [skipNext] with repeat off starts nothing at all, and with repeat
    "all" plays the first song; on the first song, [skipPrevious] with
    repeat off starts nothing, and with repeat "all" plays the last
    song. *)
Theorem skip_at_the_ends
    (p : Player) (env : PlayEnv) (soundRef : option Handle) (a : Song) :
  NoDup (List.map song_id (queueToUse p)) ->
  currentSong (state (player_render p)) = Some a ->
  (nth_error (queueToUse p) (length (queueToUse p) - 1) = Some a ->
   (repeatMode p = RepeatOff ->
    skipNextPlan p = mkSkipPlan None None
    /\ skipNext p env soundRef = mkPlayRun [] [] soundRef)
   /\ (repeatMode p = RepeatAll ->
       toPlay (skipNextPlan p) = nth_error (queueToUse p) 0))
  /\ (nth_error (queueToUse p) 0 = Some a ->
      (repeatMode p = RepeatOff ->
       skipPreviousPlan p = mkSkipPlan None None
       /\ skipPrevious p env soundRef = mkPlayRun [] [] soundRef)
      /\ (repeatMode p = RepeatAll ->
          toPlay (skipPreviousPlan p)
          = nth_error (queueToUse p) (length (queueToUse p) - 1))).
Proof.
  intros Hnd Hcur. split.
  - intros Hlast.
    pose proof (nth_error_bound _ _ _ Hlast) as Hlen.
    assert (Hidx : currentIndex p
                   = Z.of_nat (length (queueToUse p)) - 1).
    { unfold currentIndex. rewrite Hcur.
      rewrite (findIndexFrom_nth _ 0 _ a Hnd Hlast). lia. }
    split; intros Hmode.
    + assert (Hplan : skipNextPlan p = mkSkipPlan None None).
      { unfold skipNextPlan, queueLength. rewrite Hmode, ?Hcur, Hidx.
        rewrite Z.ltb_irrefl. reflexivity. }
      split; [exact Hplan |]. unfold skipNext, skipRun. rewrite Hplan.
      reflexivity.
    + unfold skipNextPlan, queueLength. rewrite Hmode, ?Hcur, Hidx.
      rewrite Z.ltb_irrefl.
      destruct (Z.ltb_spec 0 (Z.of_nat (length (queueToUse p)))); [| lia].
      simpl. apply (at_index_nat _ 0).
  - intros Hfirst.
    assert (Hidx : currentIndex p = 0).
    { unfold currentIndex. rewrite Hcur.
      rewrite (findIndexFrom_nth _ 0 _ a Hnd Hfirst). lia. }
    pose proof (nth_error_bound _ _ _ Hfirst) as Hlen.
    split; intros Hmode.
    + assert (Hplan : skipPreviousPlan p = mkSkipPlan None None).
      { unfold skipPreviousPlan. rewrite Hmode, ?Hcur, Hidx. reflexivity. }
      split; [exact Hplan |]. unfold skipPrevious, skipRun. rewrite Hplan.
      reflexivity.
    + unfold skipPreviousPlan, queueLength. rewrite Hmode, ?Hcur, Hidx.
      rewrite Z.ltb_irrefl.
      destruct (Z.ltb_spec 0 (Z.of_nat (length (queueToUse p)))); [| lia].
      simpl.
      replace (Z.of_nat (length (queueToUse p)) - 1)
        with (Z.of_nat (length (queueToUse p) - 1)) by lia.
      apply at_index_nat.
Qed.

Lemma skip_at_the_ends_witness :
  skipNext (mkPlayer (mkRender (Some alice) (Some "listening"%string)
                        (mkMusicState (Some songY) true 0 0 [songX; songY] 1))
                     false RepeatOff [])
           fineEnv (Some 1%nat)
  = mkPlayRun [] [] (Some 1%nat).
Proof.
  assert (Hnd : NoDup (List.map song_id
                         (queueToUse
                            (mkPlayer (mkRender (Some alice)
                                         (Some "listening"%string)
                                         (mkMusicState (Some songY) true 0 0
                                            [songX; songY] 1))
                                      false RepeatOff [])))).
  { simpl. apply NoDup_cons.
    split; [rewrite list_elem_of_singleton; discriminate |
            apply NoDup_singleton]. }
  destruct (skip_at_the_ends
              (mkPlayer (mkRender (Some alice) (Some "listening"%string)
                           (mkMusicState (Some songY) true 0 0
                              [songX; songY] 1))
                        false RepeatOff [])
              fineEnv (Some 1%nat) songY Hnd eq_refl) as [Hlast _].
  destruct (Hlast eq_refl) as [Hoff _].
  exact (proj2 (Hoff eq_refl)).
Defined.

(** Skipping with no current song, or with a current song the queue in
    use does not hold (repeat mode not "one"): [skipNext] plays the first
    song of the queue, if there is one; [skipPrevious] plays the last song
    under repeat "all" and otherwise starts nothing. *)
Theorem skip_without_position (p : Player) :
  repeatMode p <> RepeatOne ->
  (forall cur, currentSong (state (player_render p)) = Some cur ->
               forall s, In s (queueToUse p) -> song_id s <> song_id cur) ->
  toPlay (skipNextPlan p) = nth_error (queueToUse p) 0
  /\ toPlay (skipPreviousPlan p)
     = match repeatMode p with
       | RepeatAll => nth_error (queueToUse p) (length (queueToUse p) - 1)
       | _ => None
       end.
Proof.
  intros Hmode Habs.
  assert (Hidx : currentIndex p = -1).
  { unfold currentIndex.
    destruct (currentSong (state (player_render p))) as [cur|] eqn:Hcur;
      [| reflexivity].
    apply findIndexFrom_absent. apply (Habs cur eq_refl). }
  assert (Hempty : length (queueToUse p) = 0%nat ->
                   nth_error (queueToUse p) 0 = None).
  { intros H0. destruct (queueToUse p); [reflexivity | discriminate]. }
  split.
  - unfold skipNextPlan, queueLength. rewrite Hidx.
    destruct (Z.ltb_spec (-1) (Z.of_nat (length (queueToUse p)) - 1)) as [Hlt | Hge].
    + destruct (repeatMode p), (currentSong (state (player_render p)));
        try contradiction; apply (at_index_nat _ 0).
    + rewrite Hempty by lia.
      destruct (Z.ltb_spec 0 (Z.of_nat (length (queueToUse p)))); [lia |].
      destruct (repeatMode p), (currentSong (state (player_render p)));
        try contradiction; reflexivity.
  - unfold skipPreviousPlan, queueLength. rewrite Hidx. simpl.
    destruct (Z.ltb_spec 0 (Z.of_nat (length (queueToUse p)))) as [Hlt | Hge].
    + replace (Z.of_nat (length (queueToUse p)) - 1)
        with (Z.of_nat (length (queueToUse p) - 1)) by lia.
      rewrite at_index_nat.
      destruct (repeatMode p), (currentSong (state (player_render p)));
        try contradiction; reflexivity.
    + assert (H0 : length (queueToUse p) = 0%nat) by lia.
      rewrite H0. change (0 - 1)%nat with 0%nat. rewrite (Hempty H0).
      destruct (repeatMode p), (currentSong (state (player_render p)));
        try contradiction; reflexivity.
Qed.

Lemma skip_without_position_witness :
  toPlay (skipNextPlan (mkPlayer aliceAtJoin false RepeatOff [])) = Some songX
  /\ toPlay (skipPreviousPlan (mkPlayer aliceAtJoin false RepeatOff [])) = None.
Proof.
  assert (Hmode : repeatMode (mkPlayer aliceAtJoin false RepeatOff [])
                  <> RepeatOne) by discriminate.
  apply (skip_without_position (mkPlayer aliceAtJoin false RepeatOff [])
           Hmode).
  intros cur Hcur. discriminate Hcur.
Defined.

(** Whatever a skip hands to [playSong] is an entry of the queue in use,
    or, under repeat "one", the current song. *)
Theorem skip_plays_from_queue (p : Player) (s : Song) :
  toPlay (skipNextPlan p) = Some s \/ toPlay (skipPreviousPlan p) = Some s ->
  In s (queueToUse p)
  \/ (repeatMode p = RepeatOne
      /\ currentSong (state (player_render p)) = Some s).
Proof.
  unfold skipNextPlan, skipPreviousPlan.
  intros [H | H];
    destruct (repeatMode p) eqn:Hmode,
             (currentSong (state (player_render p))) eqn:Hcur;
    repeat match type of H with
           | context [if ?c then _ else _] => destruct c
           end;
    simpl in H;
    try discriminate;
    try (left; exact (at_index_In _ _ _ H));
    (right; split; [reflexivity | exact H]).
Qed.

Lemma skip_plays_from_queue_witness :
  In songY (queueToUse (mkPlayer aliceInRoom false RepeatOff []))
  \/ (repeatMode (mkPlayer aliceInRoom false RepeatOff []) = RepeatOne
      /\ currentSong (state (player_render
                               (mkPlayer aliceInRoom false RepeatOff [])))
         = Some songY).
Proof.
  apply (skip_plays_from_queue (mkPlayer aliceInRoom false RepeatOff []) songY).
  left. reflexivity.
Defined.

(** The end of a track.  The callback [playSong] registers belongs to the
    render that called [playSong].  Under repeat "one" it starts nothing.
    Otherwise it advances from the song that was current in that render:
    when [skipNext], called while [a] is current, starts the successor [b]
    of [a] (shuffle off, distinct ids), the callback of that run hands [b]
    to [playSong] again. *)
Theorem finished_track_advances_from_starting_render
    (p : Player) (n : nat) (a b : Song) :
  (repeatMode p = RepeatOne -> onDidJustFinish p = mkSkipPlan None None)
  /\ (isShuffleEnabled p = false ->
      repeatMode p <> RepeatOne ->
      NoDup (List.map song_id (queue (state (player_render p)))) ->
      currentSong (state (player_render p)) = Some a ->
      nth_error (queue (state (player_render p))) n = Some a ->
      nth_error (queue (state (player_render p))) (S n) = Some b ->
      toPlay (skipNextPlan p) = Some b
      /\ toPlay (onDidJustFinish p) = Some b).
Proof.
  split.
  - intros Hone. unfold onDidJustFinish. rewrite Hone. reflexivity.
  - intros Hshuffle Hmode Hnd Hcur Ha Hb.
    assert (Hnext : toPlay (skipNextPlan p) = Some b).
    { unfold skipNextPlan, currentIndex, queueLength, queueToUse.
      pose proof (nth_error_bound _ _ _ Hb) as Hlen.
      rewrite Hshuffle, Hcur, (findIndexFrom_nth _ 0 n a Hnd Ha).
      destruct (Z.ltb_spec (0 + Z.of_nat n)
                  (Z.of_nat (length (queue (state (player_render p)))) - 1));
        [| lia].
      replace (0 + Z.of_nat n + 1) with (Z.of_nat (S n)) by lia.
      rewrite at_index_nat, Hb. destruct (repeatMode p); try reflexivity.
      contradiction. }
    split; [exact Hnext |].
    unfold onDidJustFinish.
    destruct (repeatMode p); [exact Hnext | exact Hnext | contradiction].
Qed.

Lemma finished_track_advances_from_starting_render_witness :
  onDidJustFinish (mkPlayer aliceInRoom false RepeatOne [])
  = mkSkipPlan None None
  /\ toPlay (onDidJustFinish (mkPlayer aliceInRoom false RepeatOff []))
     = Some songY.
Proof.
  assert (Hmode : repeatMode (mkPlayer aliceInRoom false RepeatOff [])
                  <> RepeatOne) by discriminate.
  assert (Hnd : NoDup (List.map song_id
                         (queue (state (player_render
                            (mkPlayer aliceInRoom false RepeatOff [])))))).
  { simpl. apply NoDup_cons.
    split; [rewrite list_elem_of_singleton; discriminate |
            apply NoDup_singleton]. }
  split.
  - apply (finished_track_advances_from_starting_render
             (mkPlayer aliceInRoom false RepeatOne []) 0%nat songX songY).
    reflexivity.
  - apply (finished_track_advances_from_starting_render
             (mkPlayer aliceInRoom false RepeatOff []) 0%nat songX songY);
      [reflexivity | exact Hmode | exact Hnd | reflexivity | reflexivity
       | reflexivity].
Defined.

Lemma dropIndexFrom_before (q : list Song) :
  forall i index, index < i -> dropIndexFrom i index q = q.
Proof.
  induction q as [|s rest IH]; intros i index Hlt; [reflexivity |].
  simpl. destruct (Z.eqb_spec i index); [lia |].
  rewrite IH by lia. reflexivity.
Qed.

Lemma findIndexFrom_range (q : list Song) (id : string) :
  forall i, findIndexFrom i id q = -1 \/ i <= findIndexFrom i id q.
Proof.
  induction q as [|s rest IH]; intros i; [left; reflexivity |].
  simpl. destruct (String.eqb (song_id s) id); [right; lia |].
  destruct (IH (i + 1)) as [H | H]; [left; exact H | right; lia].
Qed.

Lemma dropIndexFrom_keeps (q : list Song) (id : string) (s : Song) :
  forall i, 0 <= i ->
    In s q -> song_id s <> id ->
    In s (dropIndexFrom i (findIndexFrom i id q) q).
Proof.
  induction q as [|x rest IH]; intros i Hi Hin Hne; [contradiction |].
  simpl. destruct (String.eqb_spec (song_id x) id) as [E | Hx].
  - rewrite Z.eqb_refl. rewrite dropIndexFrom_before by lia.
    destruct Hin as [-> | Hin]; [contradiction | exact Hin].
  - destruct (Z.eqb_spec i (findIndexFrom (i + 1) id rest)) as [E | _].
    + destruct (findIndexFrom_range rest id (i + 1)); lia.
    + destruct Hin as [-> | Hin]; [left; reflexivity |].
      right. apply IH; [lia | exact Hin | exact Hne].
Qed.

(** Shuffle on, with a current song and the shuffled queue as the shuffle
    effect builds it: the current song is at index 0 of the queue in use,
    so [skipPrevious] with repeat off starts nothing; every other queue
    entry is still in the shuffled queue. *)
Theorem shuffled_queue_starts_at_current (p : Player) (cur : Song) :
  isShuffleEnabled p = true ->
  currentSong (state (player_render p)) = Some cur ->
  Reshuffled (state (player_render p)) (shuffledQueue p) ->
  currentIndex p = 0
  /\ (repeatMode p = RepeatOff -> skipPreviousPlan p = mkSkipPlan None None)
  /\ (forall s, In s (queue (state (player_render p))) ->
                song_id s <> song_id cur ->
                In s (shuffledQueue p)).
Proof.
  intros Hshuffle Hcur (shuffled & Hperm & Href). rewrite Hcur in Href.
  assert (Hidx : currentIndex p = 0).
  { unfold currentIndex, queueToUse. rewrite Hcur, Hshuffle, Href. simpl.
    rewrite String.eqb_refl. reflexivity. }
  split; [exact Hidx |]. split.
  - intros Hoff. unfold skipPreviousPlan. rewrite Hoff, Hidx. reflexivity.
  - intros s Hin Hne. rewrite Href. right.
    apply (Permutation_in s (Permutation_sym Hperm)).
    unfold otherSongs. rewrite Hcur.
    apply dropIndexFrom_keeps; [lia | exact Hin | exact Hne].
Qed.

Lemma shuffled_queue_starts_at_current_witness :
  skipPreviousPlan (mkPlayer aliceInRoom true RepeatOff [songX; songY])
  = mkSkipPlan None None.
Proof.
  assert (Hre : Reshuffled (state (player_render
                   (mkPlayer aliceInRoom true RepeatOff [songX; songY])))
                  (shuffledQueue
                     (mkPlayer aliceInRoom true RepeatOff [songX; songY]))).
  { exists [songY]. split; [apply Permutation_refl | reflexivity]. }
  destruct (shuffled_queue_starts_at_current
              (mkPlayer aliceInRoom true RepeatOff [songX; songY]) songX
              eq_refl eq_refl Hre) as (_ & Hprev & _).
  exact (Hprev eq_refl).
Defined.

(** ** Editing the queue and the playlists *)

Lemma dropIndexFrom_beyond (q : list Song) :
  forall i index, i + Z.of_nat (length q) <= index ->
                  dropIndexFrom i index q = q.
Proof.
  induction q as [|s rest IH]; intros i index Hge; [reflexivity |].
  simpl in *. destruct (Z.eqb_spec i index); [lia |].
  rewrite IH by lia. reflexivity.
Qed.

Lemma dropIndexFrom_at (q : list Song) :
  forall i n, dropIndexFrom i (i + Z.of_nat n) q
              = firstn n q ++ skipn (S n) q.
Proof.
  induction q as [|s rest IH]; intros i n.
  - rewrite firstn_nil, skipn_nil. reflexivity.
  - destruct n as [|n]; simpl dropIndexFrom.
    + replace (i + Z.of_nat 0) with i by lia. rewrite Z.eqb_refl.
      rewrite dropIndexFrom_before by lia. reflexivity.
    + destruct (Z.eqb_spec i (i + Z.of_nat (S n))); [lia |].
      replace (i + Z.of_nat (S n)) with (i + 1 + Z.of_nat n) by lia.
      rewrite IH. reflexivity.
Qed.

Lemma withQueue_same (prev : MusicState) : withQueue (queue prev) prev = prev.
Proof. destruct prev; reflexivity. Qed.

(** [removeFromQueue]: an index outside the queue (negative, or at or past
    its length) leaves the state as it is; an index inside removes exactly
    the entry at that position, keeping the order of the others and every
    other field of the state. *)
Theorem removeFromQueue_by_position (index : Z) (prev : MusicState) :
  (index < 0 \/ Z.of_nat (length (queue prev)) <= index ->
   removeFromQueue index prev = prev)
  /\ (0 <= index < Z.of_nat (length (queue prev)) ->
      removeFromQueue index prev
      = withQueue (firstn (Z.to_nat index) (queue prev)
                   ++ skipn (S (Z.to_nat index)) (queue prev)) prev
      /\ S (length (queue (removeFromQueue index prev)))
         = length (queue prev)).
Proof.
  unfold removeFromQueue. split.
  - intros [Hneg | Hbig].
    + rewrite dropIndexFrom_before by lia. apply withQueue_same.
    + rewrite dropIndexFrom_beyond by lia. apply withQueue_same.
  - intros Hin.
    assert (E : dropIndexFrom 0 index (queue prev)
                = firstn (Z.to_nat index) (queue prev)
                  ++ skipn (S (Z.to_nat index)) (queue prev)).
    { replace index with (0 + Z.of_nat (Z.to_nat index)) at 1 by lia.
      apply dropIndexFrom_at. }
    rewrite E. split; [reflexivity |].
    simpl. rewrite List.length_app, List.length_firstn, List.length_skipn. lia.
Qed.

Lemma removeFromQueue_by_position_witness :
  removeFromQueue 5 playingX = playingX
  /\ queue (removeFromQueue 0 playingX) = [songY].
Proof.
  split.
  - destruct (removeFromQueue_by_position 5 playingX) as [Hout _].
    apply Hout. right. simpl. lia.
  - destruct (removeFromQueue_by_position 0 playingX) as [_ Hin].
    destruct Hin as [Heq _]; [simpl; lia |]. rewrite Heq. reflexivity.
Defined.

Lemma dropIndexFrom_snoc (q : list Song) (s : Song) :
  forall i, dropIndexFrom i (i + Z.of_nat (length q)) (q ++ [s]) = q.
Proof.
  induction q as [|x rest IH]; intros i.
  - cbn [app length dropIndexFrom].
    destruct (Z.eqb_spec i (i + Z.of_nat 0)); [reflexivity | lia].
  - cbn [app length dropIndexFrom].
    destruct (Z.eqb_spec i (i + Z.of_nat (S (length rest)))); [lia |].
    replace (i + Z.of_nat (S (length rest)))
      with (i + 1 + Z.of_nat (length rest)) by lia.
    rewrite IH. reflexivity.
Qed.

(** Adding a song and then removing the entry at the old length of the
    queue gives back the state. *)
Theorem addToQueue_then_remove (song : Song) (prev : MusicState) :
  removeFromQueue (Z.of_nat (length (queue prev))) (addToQueue song prev)
  = prev.
Proof.
  unfold removeFromQueue, addToQueue, withQueue. simpl.
  replace (Z.of_nat (length (queue prev)))
    with (0 + Z.of_nat (length (queue prev))) by lia.
  rewrite dropIndexFrom_snoc. destruct prev; reflexivity.
Qed.

(** [addToPlaylist] keeps the playlists, their order and their ids; an id
    no playlist carries changes nothing; a playlist with the id has the
    song appended at the end of its songs, any other playlist is kept as
    it is. *)
Theorem addToPlaylist_touches_matching_only
    (playlistId : string) (song : Song) (playlists : list Playlist) :
  List.map playlist_id (addToPlaylist playlistId song playlists)
  = List.map playlist_id playlists
  /\ ((forall pl, In pl playlists -> playlist_id pl <> playlistId) ->
      addToPlaylist playlistId song playlists = playlists)
  /\ (forall k pl,
         nth_error playlists k = Some pl ->
         exists pl',
           nth_error (addToPlaylist playlistId song playlists) k = Some pl'
           /\ playlist_name pl' = playlist_name pl
           /\ songs pl' = if String.eqb (playlist_id pl) playlistId
                          then songs pl ++ [song] else songs pl).
Proof.
  unfold addToPlaylist. split; [| split].
  - rewrite List.map_map. apply List.map_ext. intros pl.
    destruct (String.eqb (playlist_id pl) playlistId); reflexivity.
  - intros Hnone. rewrite <- (List.map_id playlists) at 2.
    apply List.map_ext_in. intros pl Hin.
    destruct (String.eqb_spec (playlist_id pl) playlistId) as [E | _];
      [exfalso; exact (Hnone pl Hin E) | reflexivity].
  - intros k pl Hk. eexists. split.
    + rewrite List.nth_error_map, Hk. reflexivity.
    + destruct (String.eqb (playlist_id pl) playlistId); split; reflexivity.
Qed.

Lemma addToPlaylist_touches_matching_only_witness :
  addToPlaylist "p9" songX [mkPlaylist "p1" "Morning" [songY]]
  = [mkPlaylist "p1" "Morning" [songY]].
Proof.
  apply (addToPlaylist_touches_matching_only "p9" songX
           [mkPlaylist "p1" "Morning" [songY]]).
  intros pl [<- | []]. discriminate.
Defined.

(** ** Joining and leaving *)

(** [joinRoom] on an existing room keeps the pivot, [id] and [createdAt],
    every participant already on the roster and every other document; on
    a missing room it creates the document with the caller as the only
    participant and the pivot: no track, not playing, position 0, no
    writer, store time.  Without an authenticated user it rejects, writes
    nothing and registers no listener. *)
Theorem joinRoom_creates_or_keeps
    (r : Render) (roomId : string) (clk : Clocks) (db : Store) :
  (user r = None ->
   joinRoom r roomId clk db = mkJoined db None Rejected)
  /\ (forall u, user r = Some u ->
        joined_listener (joinRoom r roomId clk db)
        = Some (mkSubscription roomId r u)
        /\ (forall other, other <> roomId ->
              joined_store (joinRoom r roomId clk db) !! other = db !! other)
        /\ (db !! roomId = None ->
            joined_store (joinRoom r roomId clk db) !! roomId
            = Some (Room.mkDoc roomId
                      (Some [mkParticipant (uid u) (email u) (joinedNow clk)])
                      None false (Some (serverNow clk)) (Some 0%Q) None
                      (createdNow clk)))
        /\ (forall d, db !! roomId = Some d ->
              exists d',
                joined_store (joinRoom r roomId clk db) !! roomId = Some d'
                /\ pivotOf d' = pivotOf d
                /\ Room.id d' = Room.id d
                /\ Room.createdAt d' = Room.createdAt d
                /\ forall p, In p (participantsOf d) ->
                             In p (participantsOf d'))).
Proof.
  unfold joinRoom. split.
  - intros Hu. rewrite Hu. reflexivity.
  - intros u Hu. rewrite Hu. cbn [joined_listener joined_store].
    split; [reflexivity |]. unfold joinRoom_store, updateDoc. split; [| split].
    + intros other Hne.
      destruct (db !! roomId) as [d|] eqn:Hdoc.
      * destruct (List.find (hasId (uid u)) (participantsOf d));
          [reflexivity | apply lookup_insert_ne; congruence].
      * apply lookup_insert_ne. congruence.
    + intros Hnone. rewrite Hnone. apply lookup_insert_eq.
    + intros d Hdoc. rewrite Hdoc.
      destruct (List.find (hasId (uid u)) (participantsOf d)).
      * exists d. repeat split; [exact Hdoc | auto].
      * eexists. split; [apply lookup_insert_eq |].
        repeat split. intros p Hp. unfold participantsOf at 1. simpl.
        apply List.in_or_app. left. exact Hp.
Qed.

Lemma joinRoom_creates_or_keeps_witness :
  exists d',
    joined_store (joinRoom aliceAtJoin "listening" (mkClocks 20 20 21) bobsRoom)
    !! "listening"%string = Some d'
    /\ pivotOf d' = (Some "x"%string, true, Some 7, Some 12%Q, Some "B"%string).
Proof.
  destruct (joinRoom_creates_or_keeps aliceAtJoin "listening"
              (mkClocks 20 20 21) bobsRoom) as [_ Huser].
  destruct (Huser alice eq_refl) as (_ & _ & _ & Hkeep).
  destruct (Hkeep (Room.mkDoc "listening"
                     (Some [mkParticipant "B" (Some "bob@example.org"%string) 5])
                     (Some "x"%string) true (Some 7) (Some 12%Q)
                     (Some "B"%string) 5) eq_refl)
    as (d' & Hd' & Hpivot & _).
  exists d'. split; [exact Hd' | exact Hpivot].
Defined.

Lemma find_none_fresh (who : string) (ps : list Participant) :
  List.find (hasId who) ps = None ->
  ~ In who (List.map participant_id ps).
Proof.
  induction ps as [|p ps IH]; simpl; [tauto |].
  unfold hasId at 1.
  destruct (String.eqb_spec (participant_id p) who) as [E | Hne];
    [discriminate |].
  intros Hfind [E | Hin]; [contradiction | exact (IH Hfind Hin)].
Qed.

Lemma NoDup_ids_filter (f : Participant -> bool) (ps : list Participant) :
  NoDup (List.map participant_id ps) ->
  NoDup (List.map participant_id (List.filter f ps)).
Proof.
  induction ps as [|p ps IH]; simpl; intros Hnd; [exact Hnd |].
  apply NoDup_cons in Hnd. destruct Hnd as [Hfresh Hnd].
  destruct (f p); [| exact (IH Hnd)].
  simpl. apply NoDup_cons. split; [| exact (IH Hnd)].
  intros Hin. apply Hfresh.
  apply list_elem_of_In in Hin. apply list_elem_of_In.
  apply List.in_map_iff in Hin. destruct Hin as (q & Hq & Hin).
  apply List.in_map_iff. exists q. split; [exact Hq |].
  apply List.filter_In in Hin. tauto.
Qed.

(** Joining and leaving keep every roster of the store free of duplicate
    participant ids. *)
Theorem membership_keeps_rosters_keyed
    (r : Render) (u : User) (roomId : string) (clk : Clocks) (t : Z)
    (db : Store) :
  Keyed db ->
  Keyed (joinRoom_store u roomId clk db) /\ Keyed (fst (leaveRoom r t db)).
Proof.
  intros Hk. split.
  - unfold joinRoom_store, updateDoc.
    destruct (db !! roomId) as [d|] eqn:Hdoc.
    + destruct (List.find (hasId (uid u)) (participantsOf d)) eqn:Hfind;
        [exact Hk |].
      intros room d' Hd'.
      destruct (decide (roomId = room)) as [<- | Hne].
      * rewrite lookup_insert_eq in Hd'. injection Hd' as <-.
        unfold participantsOf at 1. simpl. rewrite List.map_app. simpl.
        apply NoDup_app. split; [exact (Hk roomId d Hdoc) |].
        split; [| apply NoDup_singleton].
        intros x Hx Hsingle. apply list_elem_of_singleton in Hsingle. subst x.
        apply (find_none_fresh _ _ Hfind). apply list_elem_of_In. exact Hx.
      * rewrite lookup_insert_ne in Hd' by exact Hne. exact (Hk room d' Hd').
    + intros room d' Hd'.
      destruct (decide (roomId = room)) as [<- | Hne].
      * rewrite lookup_insert_eq in Hd'. injection Hd' as <-.
        unfold participantsOf. simpl. apply NoDup_singleton.
      * rewrite lookup_insert_ne in Hd' by exact Hne. exact (Hk room d' Hd').
  - unfold leaveRoom, updateDoc.
    destruct (roomAndUser r) as [[room0 u0]|]; [| exact Hk].
    destruct (db !! room0) as [d|] eqn:Hdoc; [| exact Hk].
    simpl. intros room d' Hd'.
    destruct (decide (room0 = room)) as [<- | Hne].
    + rewrite lookup_insert_eq in Hd'. injection Hd' as <-.
      unfold participantsOf at 1. simpl.
      apply NoDup_ids_filter. exact (Hk room0 d Hdoc).
    + rewrite lookup_insert_ne in Hd' by exact Hne. exact (Hk room d' Hd').
Qed.

Lemma membership_keeps_rosters_keyed_witness :
  Keyed (joinRoom_store alice "listening" (mkClocks 20 20 21) bobsRoom).
Proof.
  assert (Hk : Keyed bobsRoom).
  { intros room d Hd. unfold bobsRoom in Hd.
    apply lookup_singleton_Some in Hd. destruct Hd as [_ <-].
    simpl. apply NoDup_singleton. }
  apply (membership_keeps_rosters_keyed aliceInRoom alice "listening"
           (mkClocks 20 20 21) 40 bobsRoom Hk).
Defined.

Lemma filter_absent (who : string) (ps : list Participant) :
  entriesOf who ps = 0%nat ->
  List.filter (fun p => negb (hasId who p)) ps = ps.
Proof.
  unfold entriesOf. induction ps as [|p ps IH]; simpl; [reflexivity |].
  destruct (hasId who p); simpl; [discriminate |].
  intros H. rewrite (IH H). reflexivity.
Qed.

Lemma filter_self_gone (u : User) (ps : list Participant) (t : Z) :
  entriesOf (uid u) ps = 0%nat ->
  List.filter (fun p => negb (hasId (uid u) p))
              (ps ++ [mkParticipant (uid u) (email u) t]) = ps.
Proof.
  intros H. rewrite List.filter_app, (filter_absent _ _ H). simpl.
  unfold hasId. simpl. rewrite String.eqb_refl. simpl.
  apply List.app_nil_r.
Qed.

(** Join, then leave.  For a user who was not on the roster of an existing
    room (whose [participants] field is set), leaving after joining gives
    back the store exactly.  For a room that did not exist, the document
    created by the join stays, with an empty roster. *)
Theorem join_then_leave
    (r : Render) (u : User) (roomId : string) (clk : Clocks) (t : Z)
    (db : Store) :
  roomAndUser r = Some (roomId, u) ->
  (forall d ps,
      db !! roomId = Some d ->
      Room.participants d = Some ps ->
      entriesOf (uid u) ps = 0%nat ->
      fst (leaveRoom r t (joinRoom_store u roomId clk db)) = db)
  /\ (db !! roomId = None ->
      fst (leaveRoom r t (joinRoom_store u roomId clk db)) !! roomId
      = Some (Room.mkDoc roomId (Some []) None false (Some (serverNow clk))
                         (Some 0%Q) None (createdNow clk))).
Proof.
  intros Hroom. split.
  - intros d ps Hdoc Hps Habs.
    assert (Hfind : List.find (hasId (uid u)) (participantsOf d) = None).
    { destruct (List.find (hasId (uid u)) (participantsOf d)) eqn:E;
        [| reflexivity].
      apply find_some_entries in E. unfold participantsOf in E.
      rewrite Hps in E. lia. }
    unfold leaveRoom, joinRoom_store, updateDoc.
    rewrite Hroom, Hdoc, Hfind.
    cbn match. rewrite lookup_insert_eq. cbn match. cbn [fst].
    rewrite insert_insert_eq.
    apply insert_id. rewrite Hdoc. f_equal.
    unfold participantsOf at 1. cbn [applyFields onlyParticipants
      f_participants Room.participants].
    unfold participantsOf. rewrite Hps.
    rewrite (filter_self_gone u ps (joinedNow clk) Habs).
    destruct d. simpl in *. rewrite Hps. reflexivity.
  - intros Hnone. unfold leaveRoom, joinRoom_store, updateDoc.
    rewrite Hroom, Hnone. rewrite lookup_insert_eq. cbn [fst].
    rewrite lookup_insert_eq. unfold participantsOf, hasId. simpl.
    rewrite String.eqb_refl. reflexivity.
Qed.

Lemma join_then_leave_witness :
  fst (leaveRoom aliceInRoom 40
         (joinRoom_store alice "listening" (mkClocks 20 20 21) bobsRoom))
  = bobsRoom.
Proof.
  destruct (join_then_leave aliceInRoom alice "listening" (mkClocks 20 20 21)
              40 bobsRoom eq_refl) as [Hback _].
  apply (Hback (Room.mkDoc "listening"
                  (Some [mkParticipant "B" (Some "bob@example.org"%string) 5])
                  (Some "x"%string) true (Some 7) (Some 12%Q)
                  (Some "B"%string) 5)
               [mkParticipant "B" (Some "bob@example.org"%string) 5]);
    reflexivity.
Defined.

Lemma filter_twice (who : string) (ps : list Participant) :
  List.filter (fun p => negb (hasId who p))
              (List.filter (fun p => negb (hasId who p)) ps)
  = List.filter (fun p => negb (hasId who p)) ps.
Proof.
  apply filter_absent, entries_after_leave.
Qed.

(** [leaveRoom] at the edges: outside a room (no user, or no current
    room) and for a room whose document is missing it resolves and leaves
    the store as it is; leaving twice leaves the store as leaving once
    does. *)
Theorem leaveRoom_is_idempotent (r : Render) (t1 t2 : Z) (db : Store) :
  (roomAndUser r = None -> leaveRoom r t1 db = (db, Resolved))
  /\ (forall room u, roomAndUser r = Some (room, u) -> db !! room = None ->
        leaveRoom r t1 db = (db, Resolved))
  /\ fst (leaveRoom r t2 (fst (leaveRoom r t1 db))) = fst (leaveRoom r t1 db).
Proof.
  unfold leaveRoom, updateDoc. split; [| split].
  - intros Hout. rewrite Hout. reflexivity.
  - intros room u Hin Hnone. rewrite Hin, Hnone. reflexivity.
  - destruct (roomAndUser r) as [[room u]|]; [| reflexivity].
    destruct (db !! room) as [d|] eqn:Hdoc.
    + cbn [fst]. rewrite lookup_insert_eq. cbn [fst].
      rewrite insert_insert_eq. f_equal.
      unfold participantsOf at 1. simpl. rewrite filter_twice.
      reflexivity.
    + cbn [fst]. rewrite Hdoc. reflexivity.
Qed.

Lemma leaveRoom_is_idempotent_witness :
  leaveRoom aliceAtJoin 40 bobsRoom = (bobsRoom, Resolved).
Proof.
  apply (leaveRoom_is_idempotent aliceAtJoin 40 41 bobsRoom).
  reflexivity.
Defined.

(** The roster shown locally never holds the local user and is the roster
    the store holds once that user has left; a notification for a missing
    document leaves the roster shown as it is. *)
Theorem participantsListener_matches_leave
    (r : Render) (u : User) (room : string) (t : Z) (db : Store)
    (d : Room.Doc) (shown : list Participant) :
  roomAndUser r = Some (room, u) ->
  db !! room = Some d ->
  entriesOf (uid u) (participantsListener u (Some d) shown) = 0%nat
  /\ (exists d', fst (leaveRoom r t db) !! room = Some d'
                 /\ participantsOf d' = participantsListener u (Some d) shown)
  /\ participantsListener u None shown = shown.
Proof.
  intros Hin Hdoc. split; [apply entries_after_leave |].
  split; [| reflexivity].
  unfold leaveRoom, updateDoc. rewrite Hin, Hdoc. cbn [fst].
  eexists. split; [apply lookup_insert_eq | reflexivity].
Qed.

Lemma participantsListener_matches_leave_witness :
  entriesOf "B"
    (participantsListener bob
       (Some (Room.mkDoc "listening"
                (Some [mkParticipant "B" (Some "bob@example.org"%string) 5])
                (Some "x"%string) true (Some 7) (Some 12%Q)
                (Some "B"%string) 5))
       []) = 0%nat.
Proof.
  apply (participantsListener_matches_leave bobInRoom bob "listening" 40
           bobsRoom
           (Room.mkDoc "listening"
              (Some [mkParticipant "B" (Some "bob@example.org"%string) 5])
              (Some "x"%string) true (Some 7) (Some 12%Q)
              (Some "B"%string) 5)
           []); reflexivity.
Defined.

(** ** Likes *)

Lemma filter_sameLike_gone (songId userId : string) (likes : list SongLike) :
  List.filter (sameLike songId userId)
    (List.filter (fun l => negb (sameLike songId userId l)) likes) = [].
Proof.
  induction likes as [|l likes IH]; simpl; [reflexivity |].
  destruct (sameLike songId userId l) eqn:E; simpl; [exact IH |].
  rewrite E. exact IH.
Qed.

Lemma filter_others_kept (songId userId : string) (likes : list SongLike) :
  List.filter (fun l => negb (sameLike songId userId l))
    (List.filter (fun l => negb (sameLike songId userId l)) likes)
  = List.filter (fun l => negb (sameLike songId userId l)) likes.
Proof.
  induction likes as [|l likes IH]; simpl; [reflexivity |].
  destruct (sameLike songId userId l) eqn:E; simpl; [exact IH |].
  rewrite E. simpl. rewrite IH. reflexivity.
Qed.

(** [likeSong] keeps one like per song and user.  In a room, when the
    store accepts the write, the local likes afterwards hold exactly one
    like of the user for the song (also when the song was liked before)
    and the likes of every other song or user as they were, in order.
    When the store rejects the write, or outside a room, the local likes
    are unchanged; outside a room nothing is written. *)
Theorem likeSong_keeps_one_like
    (r : Render) (stamped updated : Z) (song : Song) (likes : list SongLike) :
  (forall room u, roomAndUser r = Some (room, u) ->
     List.filter (sameLike (song_id song) (uid u))
                 (snd (likeSong r true stamped updated song likes))
     = [mkSongLike (song_id song) (uid u) (displayName u) stamped]
     /\ List.filter (fun l => negb (sameLike (song_id song) (uid u) l))
                    (snd (likeSong r true stamped updated song likes))
        = List.filter (fun l => negb (sameLike (song_id song) (uid u) l)) likes
     /\ snd (likeSong r false stamped updated song likes) = likes)
  /\ (roomAndUser r = None ->
      forall ok, likeSong r ok stamped updated song likes = (None, likes)).
Proof.
  unfold likeSong. split.
  - intros room u Hroom. rewrite Hroom. cbn [snd].
    split; [| split; [| reflexivity]].
    + rewrite List.filter_app, filter_sameLike_gone. simpl.
      unfold sameLike. simpl. rewrite !String.eqb_refl. reflexivity.
    + rewrite List.filter_app, filter_others_kept. simpl.
      unfold sameLike. simpl. rewrite !String.eqb_refl. simpl.
      apply List.app_nil_r.
  - intros Hout ok. rewrite Hout. reflexivity.
Qed.

Lemma likeSong_keeps_one_like_witness :
  List.filter (sameLike "x" "A")
    (snd (likeSong aliceInRoom true 50 51 songX
            [mkSongLike "x" "A" "alice" 10; mkSongLike "x" "B" "bob" 11]))
  = [mkSongLike "x" "A" "alice" 50].
Proof.
  destruct (likeSong_keeps_one_like aliceInRoom 50 51 songX
              [mkSongLike "x" "A" "alice" 10; mkSongLike "x" "B" "bob" 11])
    as [Hroom _].
  destruct (Hroom "listening"%string alice eq_refl) as [Hone _].
  exact Hone.
Defined.

(** A like of the current song that the store accepted shows in
    [getCurrentSongLikes]; whatever that function returns is a like of the
    current song, and without a current song it returns nothing. *)
Theorem getCurrentSongLikes_shows_current
    (r : Render) (st : MusicState) (stamped updated : Z) (song : Song)
    (likes : list SongLike) (room : string) (u : User) :
  roomAndUser r = Some (room, u) ->
  currentSong st = Some song ->
  In (mkSongLike (song_id song) (uid u) (displayName u) stamped)
     (getCurrentSongLikes st
        (snd (likeSong r true stamped updated song likes)))
  /\ (forall l any, In l (getCurrentSongLikes st any) ->
                    like_songId l = song_id song)
  /\ (forall st' any, currentSong st' = None ->
                      getCurrentSongLikes st' any = []).
Proof.
  intros Hroom Hcur. split; [| split].
  - unfold getCurrentSongLikes, likeSong. rewrite Hcur, Hroom. cbn [snd].
    apply List.filter_In. split.
    + apply List.in_or_app. right. left. reflexivity.
    + simpl. apply String.eqb_refl.
  - intros l any Hin. unfold getCurrentSongLikes in Hin. rewrite Hcur in Hin.
    apply List.filter_In in Hin. destruct Hin as [_ E].
    apply String.eqb_eq in E. exact E.
  - intros st' any Hnone. unfold getCurrentSongLikes. rewrite Hnone.
    reflexivity.
Qed.

Lemma getCurrentSongLikes_shows_current_witness :
  In (mkSongLike "x" "A" "alice" 50)
     (getCurrentSongLikes playingX
        (snd (likeSong aliceInRoom true 50 51 songX
                [mkSongLike "y" "B" "bob" 11]))).
Proof.
  apply (getCurrentSongLikes_shows_current aliceInRoom playingX 50 51 songX
           [mkSongLike "y" "B" "bob" 11] "listening" alice eq_refl eq_refl).
Defined.

(** ** The seek gesture *)

Lemma seekProgress_unit (x w progress : Q) :
  seekProgress x w = Some progress -> (0 <= progress <= 1)%Q.
Proof.
  unfold seekProgress. destruct (Qeq_bool w 0).
  - destruct (Qeq_bool x 0); [discriminate |].
    destruct (Qle_bool x 0); intros H; injection H as <-;
      split; discriminate.
  - intros H. injection H as <-. split.
    + apply Q.le_max_l.
    + apply Q.max_lub; [discriminate | apply Q.le_min_l].
Qed.

(** The seek gesture never asks for a position outside the track: a
    position is requested only while the gesture is active and the
    duration is positive, and it lies between 0 and the duration.  The
    only other request, [NaN], needs a touch at abscissa 0 on a window
    exactly 32 wide. *)
Theorem handleSeekGesture_stays_in_track
    (gesture : GestureState) (x width duration : Q) :
  (forall time, handleSeekGesture gesture x width duration = SeekAt time ->
     gesture = ACTIVE /\ (0 < duration)%Q /\ (0 <= time <= duration)%Q)
  /\ (handleSeekGesture gesture x width duration = SeekNaN ->
      (x == 0)%Q /\ (width == 32)%Q).
Proof.
  unfold handleSeekGesture. split.
  - intros time H. destruct gesture; try discriminate.
    destruct (Qle_bool duration 0) eqn:Ed; [discriminate |].
    assert (Hd : (0 < duration)%Q).
    { apply Qnot_le_lt. intros Hle. apply Qle_bool_iff in Hle.
      rewrite Hle in Ed. discriminate. }
    destruct (seekProgress x (width - 32)) as [progress|] eqn:Ep;
      [| discriminate].
    injection H as <-. destruct (seekProgress_unit _ _ _ Ep) as [H0 H1].
    split; [reflexivity |]. split; [exact Hd |]. split.
    + apply Qmult_le_0_compat; [exact H0 | apply Qlt_le_weak; exact Hd].
    + apply Qle_trans with (1 * duration)%Q.
      * apply Qmult_le_compat_r; [exact H1 | apply Qlt_le_weak; exact Hd].
      * rewrite Qmult_1_l. apply Qle_refl.
  - intros H. destruct gesture; try discriminate.
    destruct (Qle_bool duration 0); [discriminate |].
    unfold seekProgress in H.
    destruct (Qeq_bool (width - 32) 0) eqn:Ew; [| discriminate].
    destruct (Qeq_bool x 0) eqn:Ex;
      [| destruct (Qle_bool x 0); discriminate].
    apply Qeq_bool_iff in Ew. apply Qeq_bool_iff in Ex.
    split; [exact Ex |].
    apply (Qplus_inj_r _ _ (-(32))). rewrite Ew. reflexivity.
Qed.

Lemma handleSeekGesture_stays_in_track_witness :
  exists time,
    handleSeekGesture ACTIVE 500 392 180 = SeekAt time
    /\ (0 <= time <= 180)%Q.
Proof.
  destruct (handleSeekGesture_stays_in_track ACTIVE 500 392 180) as [Hat _].
  eexists. split; [reflexivity |].
  apply (Hat _ eq_refl).
Defined.

(** ** The cached song list *)

Lemma truthy_Some (s : string) : s <> EmptyString -> truthy (Some s) = true.
Proof.
  intros Hne. simpl. destruct (String.eqb_spec s EmptyString);
    [contradiction | reflexivity].
Qed.

(** The cached list is used for 24 hours, the bound included: with both
    items stored and not empty, a timestamp at most [CACHE_DURATION] before
    [now] gives the parsed list, an older one gives nothing; a timestamp
    that does not parse ([NaN]) never expires.  A missing or empty item
    gives nothing. *)
Theorem loadCachedSongs_expiry
    (parseInt : string -> option Z)
    (parseSongs : string -> option (list Song))
    (now : Z) (songsData stamp : string) :
  songsData <> EmptyString ->
  stamp <> EmptyString ->
  (forall timestamp, parseInt stamp = Some timestamp ->
     (now - timestamp <= CACHE_DURATION ->
      loadCachedSongs parseInt parseSongs now (Some songsData) (Some stamp)
      = parseSongs songsData)
     /\ (CACHE_DURATION < now - timestamp ->
         loadCachedSongs parseInt parseSongs now (Some songsData) (Some stamp)
         = None))
  /\ (parseInt stamp = None ->
      loadCachedSongs parseInt parseSongs now (Some songsData) (Some stamp)
      = parseSongs songsData)
  /\ loadCachedSongs parseInt parseSongs now None (Some stamp) = None
  /\ loadCachedSongs parseInt parseSongs now (Some songsData) None = None
  /\ loadCachedSongs parseInt parseSongs now (Some EmptyString) (Some stamp)
     = None.
Proof.
  intros Hsongs Hstamp. unfold loadCachedSongs.
  rewrite (truthy_Some songsData Hsongs), (truthy_Some stamp Hstamp).
  cbn [andb]. split; [| split; [| repeat split]].
  - intros timestamp Hparse. rewrite Hparse. split; intros Hage.
    + destruct (Z.ltb_spec CACHE_DURATION (now - timestamp)); [lia |].
      reflexivity.
    + destruct (Z.ltb_spec CACHE_DURATION (now - timestamp)); [| lia].
      reflexivity.
  - intros Hnan. rewrite Hnan. reflexivity.
Qed.

Lemma loadCachedSongs_expiry_witness :
  loadCachedSongs (fun _ => Some 1000) (fun _ => Some [songX])
    (1000 + 86400000) (Some "[...]"%string) (Some "1000"%string)
  = Some [songX]
  /\ loadCachedSongs (fun _ => Some 1000) (fun _ => Some [songX])
       (1001 + 86400000) (Some "[...]"%string) (Some "1000"%string)
     = None.
Proof.
  assert (Hsongs : "[...]"%string <> EmptyString) by discriminate.
  assert (Hstamp : "1000"%string <> EmptyString) by discriminate.
  split.
  - destruct (loadCachedSongs_expiry (fun _ => Some 1000)
                (fun _ => Some [songX]) (1000 + 86400000) "[...]" "1000"
                Hsongs Hstamp) as [Hparsed _].
    destruct (Hparsed 1000 eq_refl) as [Hfresh _].
    apply Hfresh. vm_compute. discriminate.
  - destruct (loadCachedSongs_expiry (fun _ => Some 1000)
                (fun _ => Some [songX]) (1001 + 86400000) "[...]" "1000"
                Hsongs Hstamp) as [Hparsed _].
    destruct (Hparsed 1000 eq_refl) as [_ Hold].
    apply Hold. vm_compute. reflexivity.
Defined.

(** [loadSongsFromStorage] installs the cached list as the queue exactly
    when a user is signed in and [loadCachedSongs] returns a list that is
    not empty; an empty cached list sends it to the storage listing, and
    without a user it does neither. *)
Theorem loadSongsFromStorage_uses_cache
    (parseInt : string -> option Z)
    (parseSongs : string -> option (list Song))
    (r : Render) (now : Z) (cachedSongs cacheTimestamp : option string) :
  (user r = None ->
   loadSongsFromStorage parseInt parseSongs r now cachedSongs cacheTimestamp
   = NoUser)
  /\ (user r <> None ->
      forall cached,
        loadSongsFromStorage parseInt parseSongs r now cachedSongs
          cacheTimestamp = UseCached cached
        <-> loadCachedSongs parseInt parseSongs now cachedSongs cacheTimestamp
            = Some cached
            /\ cached <> []).
Proof.
  unfold loadSongsFromStorage. split.
  - intros Hu. rewrite Hu. reflexivity.
  - intros Hu cached. destruct (user r); [| contradiction].
    destruct (loadCachedSongs parseInt parseSongs now cachedSongs
                cacheTimestamp) as [l|].
    + destruct l as [|s l]; simpl.
      * split; [discriminate | intros [E Hne]; injection E as <-;
                               contradiction].
      * split.
        -- intros E. injection E as <-. split; [reflexivity | discriminate].
        -- intros [E _]. injection E as <-. reflexivity.
    + split; [discriminate | intros [E _]; discriminate].
Qed.

Lemma loadSongsFromStorage_uses_cache_witness :
  loadSongsFromStorage (fun _ => Some 1000) (fun _ => Some [])
    aliceAtJoin 2000 (Some "[]"%string) (Some "1000"%string)
  <> UseCached [].
Proof.
  assert (Hu : user aliceAtJoin <> None) by discriminate.
  destruct (loadSongsFromStorage_uses_cache (fun _ => Some 1000)
              (fun _ => Some []) aliceAtJoin 2000 (Some "[]"%string)
              (Some "1000"%string)) as [_ Hin].
  intros E. apply (Hin Hu []) in E. destruct E as [_ Hne].
  apply Hne. reflexivity.
Defined.

(** ** Failing loads *)

(** A [playSong] run that fails before it has its sound (stopping or
    unloading the previous sound, the cache lookup or the load rejects)
    logs the error and nothing else follows: [soundRef.current] still
    holds the previous sound, no state update is made and nothing is
    published.  A run that has its sound installs it, makes the one state
    update "this song, playing, at 0" and goes on to [updateTrack]; when
    the store rejects that write the run logs it and keeps the sound and
    the state it set. *)
Theorem playSong_failure_is_silent
    (r : Render) (env : PlayEnv) (ref0 : option Handle) (song : Song) :
  (reachesLoad env ref0 = false \/ created env = None ->
   soundRefAfter (playSong r env ref0 song) = ref0
   /\ In playSongError (afterAwait (playSong r env ref0 song))
   /\ List.filter is_state_change
        (beforeAwait (playSong r env ref0 song)
         ++ afterAwait (playSong r env ref0 song)) = []
   /\ List.filter is_write
        (beforeAwait (playSong r env ref0 song)
         ++ afterAwait (playSong r env ref0 song)) = [])
  /\ (forall h, reachesLoad env ref0 = true ->
        created env = Some h ->
        soundRefAfter (playSong r env ref0 song) = Some h
        /\ ~ In playSongError (afterAwait (playSong r env ref0 song))
        /\ List.filter is_state_change
             (beforeAwait (playSong r env ref0 song)
              ++ afterAwait (playSong r env ref0 song))
           = [SetState (SetNowPlaying song)]
        /\ List.filter is_write
             (beforeAwait (playSong r env ref0 song)
              ++ afterAwait (playSong r env ref0 song))
           = match roomAndUser r with
             | Some (room, u) => [UpdateDoc room (trackFact u song)]
             | None => []
             end
        /\ (storeOk env = false ->
            forall room u, roomAndUser r = Some (room, u) ->
              In (ConsoleError "Error updating track:")
                 (afterAwait (playSong r env ref0 song)))).
Proof.
  unfold reachesLoad, playSong, playSong_load, playSong_publish, updateTrack,
    guardedUpdate, playSongError.
  split.
  - intros Hfail.
    destruct ref0 as [old|], (stopOk env), (unloadOk env),
      (cacheInfo env) as [c|], (created env) as [h|];
      simpl in *;
      try (destruct Hfail as [Hfail | Hfail]; discriminate Hfail);
      repeat split; simpl; auto.
  - intros h Hload Hcreated. rewrite Hcreated.
    destruct ref0 as [old|], (stopOk env), (unloadOk env),
      (cacheInfo env) as [c|], (roomAndUser r) as [[room u]|],
      (storeOk env);
      simpl in *; try discriminate;
      (split; [reflexivity |]);
      (split; [intros Hin; repeat (destruct Hin as [Hin | Hin];
                                   [discriminate Hin |]); exact Hin |]);
      (split; [reflexivity |]); (split; [reflexivity |]);
      intros Hstore room' u' Hroom; try discriminate; simpl; auto 10.
Qed.

Lemma playSong_failure_is_silent_witness :
  soundRefAfter
    (playSong aliceInRoom
       (mkPlayEnv "file:///data/" true true (Some true) true None true)
       (Some 1%nat) songY) = Some 1%nat
  /\ List.filter is_write
       (beforeAwait
          (playSong aliceInRoom
             (mkPlayEnv "file:///data/" true true (Some true) true None true)
             (Some 1%nat) songY)
        ++ afterAwait
             (playSong aliceInRoom
                (mkPlayEnv "file:///data/" true true (Some true) true None
                           true)
                (Some 1%nat) songY)) = []
  /\ soundRefAfter
       (playSong aliceInRoom
          (mkPlayEnv "file:///data/" true true (Some true) true (Some 2%nat)
                     false)
          (Some 1%nat) songY) = Some 2%nat
  /\ In (ConsoleError "Error updating track:")
        (afterAwait
           (playSong aliceInRoom
              (mkPlayEnv "file:///data/" true true (Some true) true
                         (Some 2%nat) false)
              (Some 1%nat) songY)).
Proof.
  destruct (playSong_failure_is_silent aliceInRoom
              (mkPlayEnv "file:///data/" true true (Some true) true None true)
              (Some 1%nat) songY) as [Hfail _].
  destruct (Hfail (or_intror eq_refl)) as (Href & _ & _ & Hw).
  destruct (playSong_failure_is_silent aliceInRoom
              (mkPlayEnv "file:///data/" true true (Some true) true
                         (Some 2%nat) false)
              (Some 1%nat) songY) as [_ Hgot].
  destruct (Hgot 2%nat eq_refl eq_refl) as (Href2 & _ & _ & _ & Hlog).
  split; [exact Href |]. split; [exact Hw |]. split; [exact Href2 |].
  exact (Hlog eq_refl "listening"%string alice eq_refl).
Defined.
